(** * Extension placement in the browser extension service

    A shallow embedding of
    [src/vs/workbench/services/extensions/browser/extensionService.ts]:
    the capability resolver [pickRunningLocation], the table builders
    [determineRunningLocation] / [_determineRunningLocation], the filter
    [filterByRunningLocation], and the two stateful methods
    [_updateExtensionsOnExtHosts] and [_scanAndHandleExtensions].

    JavaScript [Map<string, V>] is a [gmap string V] ([set] is insert, [get]
    is lookup with [undefined] as [None], [delete] is delete), [Set<string>]
    is a [gset string], arrays are lists and [forEach] / [for .. of] are left
    folds.  An [async] method is a function in a state-and-rejection monad:
    [await] is its bind, a rejected promise aborts the rest of the method and
    keeps every mutation made so far. *)

From Stdlib Require Import Ascii String.
From stdpp Require Import gmap strings list fin_maps.

(** ** Data model *)

(** [type ExtensionKind = 'ui' | 'workspace' | 'web'].  The union is a type
    of string literals; at run time a tag is a string, and the resolver
    compares it with [===]. *)
Abbreviation ExtensionKind := string (only parsing).

(** [const enum ExtensionRunningLocation { None, LocalWebWorker, Remote }] *)
Module ExtensionRunningLocation.
Inductive t : Type := None | LocalWebWorker | Remote.

#[global] Instance eq_dec : EqDecision t.
Proof. solve_decision. Defined.
End ExtensionRunningLocation.

(** [ExtensionHostKind], of which this service uses two members. *)
Module ExtensionHostKind.
Inductive t : Type := LocalWebWorker | Remote.

#[global] Instance eq_dec : EqDecision t.
Proof. solve_decision. Defined.
End ExtensionHostKind.

(** [ExtensionIdentifier]: the class keeps the identifier as written. *)
Record ExtensionIdentifier : Type := mkExtensionIdentifier { value : string }.

#[global] Instance ExtensionIdentifier_eq_dec : EqDecision ExtensionIdentifier.
Proof. solve_decision. Defined.

(** The part of a [URI] that the service reads. *)
Record URI : Type := mkURI { scheme : string; path : string }.

#[global] Instance URI_eq_dec : EqDecision URI.
Proof. solve_decision. Defined.

Module Schemas.
Definition vscodeRemote : string := "vscode-remote".
Definition http : string := "http".
End Schemas.

(** [IExtensionDescription]: identity, location, and the manifest's
    [extensionKind] entry (the rest of the manifest is opaque here). *)
Record IExtensionDescription : Type := mkExtension {
  identifier : ExtensionIdentifier;
  extensionLocation : URI;
  extensionKind : list ExtensionKind
}.

#[global] Instance IExtensionDescription_eq_dec : EqDecision IExtensionDescription.
Proof. solve_decision. Defined.

(** Modelled from the spec: [ExtensionIdentifier.toKey] is declared in
    [vs/platform/extensions/common/extensions], outside this slice.  The
    identity is "a case-insensitive, normalized identifier string used as the
    unique key for all maps"; the key is the identifier in lower case.
    Strings here are byte strings: the letters [A]-[Z] are folded and every
    other byte is kept, which is [toLowerCase] on ASCII identifiers only. *)
Definition lowerAscii (c : ascii) : ascii :=
  let n := nat_of_ascii c in
  if (65 <=? n)%nat && (n <=? 90)%nat then ascii_of_nat (n + 32) else c.

Fixpoint toLowerCase (s : string) : string :=
  match s with
  | EmptyString => EmptyString
  | String c rest => String (lowerAscii c) (toLowerCase rest)
  end.

Definition toKey (id : ExtensionIdentifier) : string := toLowerCase (value id).

(** ** The capability resolver *)

(** [pickRunningLocation], lines 244-260: the [for .. of] loop with its
    three early returns. *)
Fixpoint pickRunningLocation (extensionKinds : list ExtensionKind)
    (isInstalledLocally isInstalledRemotely : bool) : ExtensionRunningLocation.t :=
  match extensionKinds with
  | [] => ExtensionRunningLocation.None
  | extensionKind :: rest =>
      if String.eqb extensionKind "ui" && isInstalledRemotely then
        ExtensionRunningLocation.Remote
      else if String.eqb extensionKind "workspace" && isInstalledRemotely then
        ExtensionRunningLocation.Remote
      else if String.eqb extensionKind "web" && isInstalledLocally then
        ExtensionRunningLocation.LocalWebWorker
      else pickRunningLocation rest isInstalledLocally isInstalledRemotely
  end.

(** ** The placement table *)

(** [new Set<string>()] filled by [forEach(ext => set.add(toKey(ext.identifier)))]. *)
Definition keySet (extensions : list IExtensionDescription) : gset string :=
  foldl (fun s ext => {[ toKey (identifier ext) ]} ∪ s) ∅ extensions.

(** [determineRunningLocation], lines 262-280.  [hasRemote] is a parameter
    of the source function and is kept. *)
Definition determineRunningLocation
    (localExtensions remoteExtensions : list IExtensionDescription)
    (allExtensionKinds : gmap string (list ExtensionKind))
    (hasRemote : bool) : gmap string ExtensionRunningLocation.t :=
  let localExtensionsSet := keySet localExtensions in
  let remoteExtensionsSet := keySet remoteExtensions in
  let _pickRunningLocation (extension : IExtensionDescription) :=
    let isInstalledLocally :=
      bool_decide (toKey (identifier extension) ∈ localExtensionsSet) in
    let isInstalledRemotely :=
      bool_decide (toKey (identifier extension) ∈ remoteExtensionsSet) in
    let extensionKinds :=
      default [] (allExtensionKinds !! toKey (identifier extension)) in
    pickRunningLocation extensionKinds isInstalledLocally isInstalledRemotely in
  let runningLocation : gmap string ExtensionRunningLocation.t := ∅ in
  let runningLocation :=
    foldl (fun m ext => <[ toKey (identifier ext) := _pickRunningLocation ext ]> m)
          runningLocation localExtensions in
  let runningLocation :=
    foldl (fun m ext => <[ toKey (identifier ext) := _pickRunningLocation ext ]> m)
          runningLocation remoteExtensions in
  runningLocation.

(** [filterByRunningLocation], lines 289-291: [===] against a [get] that
    may be [undefined]. *)
Definition filterByRunningLocation (extensions : list IExtensionDescription)
    (runningLocation : gmap string ExtensionRunningLocation.t)
    (desiredRunningLocation : ExtensionRunningLocation.t) : list IExtensionDescription :=
  filter (fun ext => runningLocation !! toKey (identifier ext) = Some desiredRunningLocation)
         extensions.

Section WithExtensionKind.

(** [getExtensionKind(ext, productService, configurationService)] from
    [extensionsUtil], outside this slice; the two services are fixed for
    the lifetime of the extension service. *)
Variable getExtensionKind : IExtensionDescription → list ExtensionKind.

(** [_determineRunningLocation], lines 282-287. *)
Definition _determineRunningLocation
    (localExtensions remoteExtensions : list IExtensionDescription)
    (hasRemote : bool) : gmap string ExtensionRunningLocation.t :=
  let allExtensionKinds : gmap string (list ExtensionKind) := ∅ in
  let allExtensionKinds :=
    foldl (fun m ext => <[ toKey (identifier ext) := getExtensionKind ext ]> m)
          allExtensionKinds localExtensions in
  let allExtensionKinds :=
    foldl (fun m ext => <[ toKey (identifier ext) := getExtensionKind ext ]> m)
          allExtensionKinds remoteExtensions in
  determineRunningLocation localExtensions remoteExtensions allExtensionKinds hasRemote.

End WithExtensionKind.

(** ** Promises, collaborators and the service state *)

(** How an awaited promise settles.  The reason of a rejection plays no
    role in this file. *)
Inductive outcome (A : Type) : Type :=
  | Fulfilled (a : A)
  | Rejected.
Arguments Fulfilled {A} a.
Arguments Rejected {A}.

(** An extension host manager, seen through the one method the service
    calls: [deltaExtensions(toAdd, toRemove): Promise<void>]. *)
Record ExtensionHostManager : Type := mkManager {
  deltaExtensions :
    list IExtensionDescription → list ExtensionIdentifier → outcome unit
}.

(** One issued [deltaExtensions] call. *)
Record DeltaCall : Type := mkDeltaCall {
  callKind : ExtensionHostKind.t;
  callToAdd : list IExtensionDescription;
  callToRemove : list ExtensionIdentifier
}.

#[global] Instance DeltaCall_eq_dec : EqDecision DeltaCall.
Proof. solve_decision. Defined.

Record IRemoteAgentEnvironment : Type := mkEnvironment {
  env_pid : Z;
  env_appRoot : URI;
  env_extensionHostLogsPath : URI;
  env_globalStorageHome : URI;
  env_workspaceStorageHome : URI
}.

Record IRemoteAgentConnection : Type := mkConnection { remoteAuthority : string }.

Record IRemoteConnectionData : Type := mkConnectionData {
  host : string;
  port : Z
}.

(** [IRemoteExtensionHostInitData], built at lines 215-224. *)
Record IRemoteExtensionHostInitData : Type := mkInitData {
  connectionData : option IRemoteConnectionData;
  pid : Z;
  appRoot : URI;
  extensionHostLogsPath : URI;
  globalStorageHome : URI;
  workspaceStorageHome : URI;
  extensions : list IExtensionDescription;
  allExtensions : list IExtensionDescription
}.

Section Service.

Variable getExtensionKind : IExtensionDescription → list ExtensionKind.

(** [ExtensionDescriptionRegistry] of the abstract service: its state,
    [deltaExtensions] (which returns the extensions it dropped because of
    dependency loops) and [getAllExtensionDescriptions]. *)
Variable Registry : Type.
Variable registryDeltaExtensions :
  Registry → list IExtensionDescription → list ExtensionIdentifier →
  Registry * list IExtensionDescription.
Variable getAllExtensionDescriptions : Registry → list IExtensionDescription.

(** [_checkEnabledAndProposedAPI] of the abstract service. *)
Variable _checkEnabledAndProposedAPI :
  list IExtensionDescription → list IExtensionDescription.

(** [_remoteAuthorityResolverService.getConnectionData]. *)
Variable getConnectionData : string → option IRemoteConnectionData.

(** The fields of [this] that the two methods read or write.
    [_extensionHostManagers] stands for [_getExtensionHostManager], which
    answers [null] when no manager of the kind exists.  [deltaCalls] and
    [messages] are the observable effects: the [deltaExtensions] calls
    issued, and the texts passed to [_logOrShowMessage], oldest first. *)
Record ExtensionService : Type := mkService {
  _remoteInitData : option IRemoteExtensionHostInitData;
  _runningLocation : gmap string ExtensionRunningLocation.t;
  _registry : Registry;
  _extensionHostManagers : ExtensionHostKind.t → option ExtensionHostManager;
  deltaCalls : list DeltaCall;
  messages : list string
}.

Definition withRunningLocation (m : gmap string ExtensionRunningLocation.t)
    (this : ExtensionService) : ExtensionService :=
  {| _remoteInitData := _remoteInitData this;
     _runningLocation := m;
     _registry := _registry this;
     _extensionHostManagers := _extensionHostManagers this;
     deltaCalls := deltaCalls this;
     messages := messages this |}.

Definition withRemoteInitData (d : option IRemoteExtensionHostInitData)
    (this : ExtensionService) : ExtensionService :=
  {| _remoteInitData := d;
     _runningLocation := _runningLocation this;
     _registry := _registry this;
     _extensionHostManagers := _extensionHostManagers this;
     deltaCalls := deltaCalls this;
     messages := messages this |}.

Definition withRegistry (r : Registry) (this : ExtensionService) : ExtensionService :=
  {| _remoteInitData := _remoteInitData this;
     _runningLocation := _runningLocation this;
     _registry := r;
     _extensionHostManagers := _extensionHostManagers this;
     deltaCalls := deltaCalls this;
     messages := messages this |}.

Definition withDeltaCall (c : DeltaCall) (this : ExtensionService) : ExtensionService :=
  {| _remoteInitData := _remoteInitData this;
     _runningLocation := _runningLocation this;
     _registry := _registry this;
     _extensionHostManagers := _extensionHostManagers this;
     deltaCalls := deltaCalls this ++ [c];
     messages := messages this |}.

Definition withMessage (msg : string) (this : ExtensionService) : ExtensionService :=
  {| _remoteInitData := _remoteInitData this;
     _runningLocation := _runningLocation this;
     _registry := _registry this;
     _extensionHostManagers := _extensionHostManagers this;
     deltaCalls := deltaCalls this;
     messages := messages this ++ [msg] |}.

(** *** The monad of [async] methods *)

Definition Async (A : Type) : Type := ExtensionService → outcome A * ExtensionService.

Definition resolve {A : Type} (a : A) : Async A := fun this => (Fulfilled a, this).

Definition reject {A : Type} : Async A := fun this => (Rejected, this).

Definition await {A B : Type} (p : Async A) (k : A → Async B) : Async B :=
  fun this =>
    match p this with
    | (Fulfilled a, this') => k a this'
    | (Rejected, this') => (Rejected, this')
    end.

Definition update (f : ExtensionService → ExtensionService) : Async unit :=
  fun this => (Fulfilled tt, f this).

Definition settle {A : Type} (o : outcome A) : Async A := fun this => (o, this).

Notation "x <~ p ;> k" := (await p (fun x => k))
  (at level 20, p at level 99, k at level 200, only parsing).
Notation "p ;> k" := (await p (fun _ => k))
  (at level 100, k at level 200, right associativity, only parsing).

Definition _getExtensionHostManager (kind : ExtensionHostKind.t)
    : Async (option ExtensionHostManager) :=
  fun this => (Fulfilled (_extensionHostManagers this kind), this).

(** [manager.deltaExtensions(toAdd, toRemove)]: the call is issued, then
    its promise settles. *)
Definition callDeltaExtensions (kind : ExtensionHostKind.t) (manager : ExtensionHostManager)
    (toAdd : list IExtensionDescription) (toRemove : list ExtensionIdentifier)
    : Async unit :=
  update (withDeltaCall (mkDeltaCall kind toAdd toRemove)) ;>
  settle (deltaExtensions manager toAdd toRemove).

(** *** [_updateExtensionsOnExtHosts], lines 106-146 *)

Definition isRemoteLocation (extension : IExtensionDescription) : bool :=
  String.eqb (scheme (extensionLocation extension)) Schemas.vscodeRemote.

(** The decision of lines 111-113 for one added extension. *)
Definition addedRunningLocation (extension : IExtensionDescription)
    : ExtensionRunningLocation.t :=
  let extensionKind := getExtensionKind extension in
  let isRemote := isRemoteLocation extension in
  pickRunningLocation extensionKind (negb isRemote) isRemote.

(** The loop accumulator: the two lists being pushed to, and the map. *)
Definition Partition (A : Type) : Type :=
  list A * list A * gmap string ExtensionRunningLocation.t.

(** Body of the loop of lines 110-120. *)
Definition addStep (acc : Partition IExtensionDescription)
    (extension : IExtensionDescription) : Partition IExtensionDescription :=
  let '(localToAdd, remoteToAdd, runningLocationMap) := acc in
  let runningLocation := addedRunningLocation extension in
  let runningLocationMap :=
    <[ toKey (identifier extension) := runningLocation ]> runningLocationMap in
  match runningLocation with
  | ExtensionRunningLocation.LocalWebWorker =>
      (localToAdd ++ [extension], remoteToAdd, runningLocationMap)
  | ExtensionRunningLocation.Remote =>
      (localToAdd, remoteToAdd ++ [extension], runningLocationMap)
  | ExtensionRunningLocation.None =>
      (localToAdd, remoteToAdd, runningLocationMap)
  end.

Definition partitionToAdd (toAdd : list IExtensionDescription)
    (runningLocationMap : gmap string ExtensionRunningLocation.t)
    : Partition IExtensionDescription :=
  foldl addStep ([], [], runningLocationMap) toAdd.

(** Body of the loop of lines 124-132: [get], then [delete], then route. *)
Definition removeStep (acc : Partition ExtensionIdentifier)
    (extensionId : ExtensionIdentifier) : Partition ExtensionIdentifier :=
  let '(localToRemove, remoteToRemove, runningLocationMap) := acc in
  let runningLocation := runningLocationMap !! toKey extensionId in
  let runningLocationMap := delete (toKey extensionId) runningLocationMap in
  match runningLocation with
  | Some ExtensionRunningLocation.LocalWebWorker =>
      (localToRemove ++ [extensionId], remoteToRemove, runningLocationMap)
  | Some ExtensionRunningLocation.Remote =>
      (localToRemove, remoteToRemove ++ [extensionId], runningLocationMap)
  | _ => (localToRemove, remoteToRemove, runningLocationMap)
  end.

Definition partitionToRemove (toRemove : list ExtensionIdentifier)
    (runningLocationMap : gmap string ExtensionRunningLocation.t)
    : Partition ExtensionIdentifier :=
  foldl removeStep ([], [], runningLocationMap) toRemove.

(** [xs.length > 0] *)
Definition nonEmpty {A : Type} (xs : list A) : bool :=
  match xs with [] => false | _ :: _ => true end.

(** Lines 134-139 and 140-145: one guarded, awaited dispatch. *)
Definition dispatch (kind : ExtensionHostKind.t)
    (toAdd : list IExtensionDescription) (toRemove : list ExtensionIdentifier)
    : Async unit :=
  if nonEmpty toAdd || nonEmpty toRemove then
    manager <~ _getExtensionHostManager kind ;>
    match manager with
    | Some manager => callDeltaExtensions kind manager toAdd toRemove
    | None => resolve tt
    end
  else resolve tt.

Definition _updateExtensionsOnExtHosts (toAdd : list IExtensionDescription)
    (toRemove : list ExtensionIdentifier) : Async unit :=
  fun this =>
    let '(localToAdd, remoteToAdd, runningLocationMap) :=
      partitionToAdd toAdd (_runningLocation this) in
    let '(localToRemove, remoteToRemove, runningLocationMap) :=
      partitionToRemove toRemove runningLocationMap in
    (update (withRunningLocation runningLocationMap) ;>
     dispatch ExtensionHostKind.LocalWebWorker localToAdd localToRemove ;>
     dispatch ExtensionHostKind.Remote remoteToAdd remoteToRemove) this.

(** *** [_scanAndHandleExtensions], lines 192-228 *)

(** [Promise.all] over the three scans of lines 194-198: fulfilled with
    the triple when all three are, rejected otherwise. *)
Definition promiseAll3 {A B C : Type} (a : outcome A) (b : outcome B) (c : outcome C)
    : outcome (A * B * C) :=
  match a, b, c with
  | Fulfilled x, Fulfilled y, Fulfilled z => Fulfilled (x, y, z)
  | _, _, _ => Rejected
  end.

(** The text of line 210. *)
Definition loopingMessage (removedDueToLooping : list IExtensionDescription) : string :=
  "The following extensions contain dependency loops and have been disabled: " +:+
  String.concat ", "
    (map (fun e => "'" +:+ value (identifier e) +:+ "'") removedDueToLooping).

(** The arguments are what the collaborators answer during this pass:
    the web scanner's (already parsed) extensions, the remote agent's
    environment and extensions, and [getConnection()].
    [_doHandleExtensionPoints] touches none of the fields modelled and is
    left out. *)
Definition _scanAndHandleExtensions
    (scanAndTranslateExtensions : outcome (list IExtensionDescription))
    (getEnvironment : outcome (option IRemoteAgentEnvironment))
    (scanExtensions : outcome (list IExtensionDescription))
    (getConnection : option IRemoteAgentConnection) : Async unit :=
  scanned <~ settle (promiseAll3 scanAndTranslateExtensions getEnvironment scanExtensions) ;>
  let '(localExtensions, remoteEnv, remoteExtensions) := scanned in
  let localExtensions := _checkEnabledAndProposedAPI localExtensions in
  let remoteExtensions := _checkEnabledAndProposedAPI remoteExtensions in
  let remoteAgentConnection := getConnection in
  let runningLocationMap :=
    _determineRunningLocation getExtensionKind localExtensions remoteExtensions
      (bool_decide (is_Some remoteEnv) && bool_decide (is_Some remoteAgentConnection)) in
  update (withRunningLocation runningLocationMap) ;>
  let localExtensions :=
    filterByRunningLocation localExtensions runningLocationMap
      ExtensionRunningLocation.LocalWebWorker in
  let remoteExtensions :=
    filterByRunningLocation remoteExtensions runningLocationMap
      ExtensionRunningLocation.Remote in
  fun this =>
    let '(registry, removedDueToLooping) :=
      registryDeltaExtensions (_registry this) (remoteExtensions ++ localExtensions) [] in
    ((update (withRegistry registry)) ;>
     (if nonEmpty removedDueToLooping
      then update (withMessage (loopingMessage removedDueToLooping))
      else resolve tt) ;>
     (match remoteEnv, remoteAgentConnection with
      | Some remoteEnv, Some remoteAgentConnection =>
          update (withRemoteInitData (Some
            {| connectionData := getConnectionData (remoteAuthority remoteAgentConnection);
               pid := env_pid remoteEnv;
               appRoot := env_appRoot remoteEnv;
               extensionHostLogsPath := env_extensionHostLogsPath remoteEnv;
               globalStorageHome := env_globalStorageHome remoteEnv;
               workspaceStorageHome := env_workspaceStorageHome remoteEnv;
               extensions := remoteExtensions;
               allExtensions := getAllExtensionDescriptions registry |}))
      | _, _ => resolve tt
      end)) this.

End Service.

Arguments mkService {Registry}.
Arguments _remoteInitData {Registry}.
Arguments _runningLocation {Registry}.
Arguments _registry {Registry}.
Arguments _extensionHostManagers {Registry}.
Arguments deltaCalls {Registry}.
Arguments messages {Registry}.
Arguments withRunningLocation {Registry}.
Arguments withRemoteInitData {Registry}.
Arguments withRegistry {Registry}.
Arguments withDeltaCall {Registry}.
Arguments withMessage {Registry}.
Arguments resolve {Registry A}.
Arguments reject {Registry A}.
Arguments await {Registry A B}.
Arguments update {Registry}.
Arguments settle {Registry A}.
Arguments _getExtensionHostManager {Registry}.
Arguments callDeltaExtensions {Registry}.
Arguments dispatch {Registry}.
Arguments _updateExtensionsOnExtHosts getExtensionKind {Registry}.
Arguments _scanAndHandleExtensions getExtensionKind {Registry}.

(** ** What a dispatch is expected to do *)

(** The [deltaExtensions] call that a guarded dispatch issues: one call when
    one of the two lists is non-empty and a manager of the kind exists. *)
Definition dispatchCalls (managers : ExtensionHostKind.t → option ExtensionHostManager)
    (kind : ExtensionHostKind.t) (toAdd : list IExtensionDescription)
    (toRemove : list ExtensionIdentifier) : list DeltaCall :=
  if nonEmpty toAdd || nonEmpty toRemove then
    match managers kind with
    | Some _ => [mkDeltaCall kind toAdd toRemove]
    | None => []
    end
  else [].

(** How that dispatch settles: as the manager's call does, and fulfilled
    when no call is issued. *)
Definition dispatchOutcome (managers : ExtensionHostKind.t → option ExtensionHostManager)
    (kind : ExtensionHostKind.t) (toAdd : list IExtensionDescription)
    (toRemove : list ExtensionIdentifier) : outcome unit :=
  if nonEmpty toAdd || nonEmpty toRemove then
    match managers kind with
    | Some manager => deltaExtensions manager toAdd toRemove
    | None => Fulfilled tt
    end
  else Fulfilled tt.

(** A service with no state yet, over a registry without content. *)
Definition freshService (managers : ExtensionHostKind.t → option ExtensionHostManager)
    : ExtensionService unit :=
  mkService None ∅ tt managers [] [].

(** Both hosts exist; the local web worker rejects every delta, the remote
    host accepts every delta. *)
Definition localRejects (kind : ExtensionHostKind.t) : option ExtensionHostManager :=
  match kind with
  | ExtensionHostKind.LocalWebWorker => Some (mkManager (fun _ _ => Rejected))
  | ExtensionHostKind.Remote => Some (mkManager (fun _ _ => Fulfilled tt))
  end.

(** ** Vocabulary of the properties *)

(** A matching tag: [ui] or [workspace] with the
    extension installed remotely, or [web] with it installed locally. *)
Definition tagMatches (tag : ExtensionKind) (isInstalledLocally isInstalledRemotely : bool)
    : Prop :=
  ((tag = "ui" ∨ tag = "workspace") ∧ isInstalledRemotely = true)
  ∨ (tag = "web" ∧ isInstalledLocally = true).

(** The last element of a catalog that carries a given key: the one whose
    [set] survives. *)
Definition lastWithKey (k : string) (extensions : list IExtensionDescription)
    : option IExtensionDescription :=
  last (filter (fun e => toKey (identifier e) = k) extensions).

(** Sample catalogs. *)

Definition sampleExtension (name location : string) (kinds : list ExtensionKind)
    : IExtensionDescription :=
  mkExtension (mkExtensionIdentifier name) (mkURI location ("/" +:+ name)) kinds.

Definition E1_ui_local : IExtensionDescription := sampleExtension "Pub.E1" "http" ["ui"].
Definition E1_ui_remote : IExtensionDescription :=
  sampleExtension "pub.e1" "vscode-remote" ["ui"].
Definition E1_web_local : IExtensionDescription := sampleExtension "Pub.E1" "http" ["web"].
Definition E2_web_local : IExtensionDescription := sampleExtension "pub.e2" "http" ["web"].

(** A registry that keeps the extensions it is given, in order, and never
    finds a dependency loop. *)
Definition listRegistryDelta (registry toAdd : list IExtensionDescription)
    (toRemove : list ExtensionIdentifier)
    : list IExtensionDescription * list IExtensionDescription :=
  (registry ++ toAdd, []).

Definition sampleEnvironment : IRemoteAgentEnvironment :=
  mkEnvironment 4242 (mkURI "vscode-remote" "/app") (mkURI "vscode-remote" "/logs")
    (mkURI "vscode-remote" "/global") (mkURI "vscode-remote" "/workspace").

(** ** The remaining methods of the service *)

(** [IExtension]: an installed extension as the management service reports
    it, with its manifest and its location. *)
Record IExtension (Manifest : Type) : Type := mkIExtension {
  manifest : Manifest;
  location : URI
}.
Arguments mkIExtension {Manifest}.
Arguments manifest {Manifest}.
Arguments location {Manifest}.

Section CanAddExtension.

(** [IExtensionManifest] and [getExtensionKind] on it, outside this slice. *)
Variable Manifest : Type.
Variable getManifestKind : Manifest → list ExtensionKind.

(** [super._canAddExtension] of the abstract service. *)
Variable superCanAddExtension : IExtension Manifest → bool.

(** [_canAddExtension], lines 83-91. *)
Definition _canAddExtension (extension : IExtension Manifest) : bool :=
  let extensionKind := getManifestKind (manifest extension) in
  let isRemote := String.eqb (scheme (location extension)) Schemas.vscodeRemote in
  let runningLocation := pickRunningLocation extensionKind (negb isRemote) isRemote in
  if decide (runningLocation = ExtensionRunningLocation.None) then false
  else superCanAddExtension extension.

End CanAddExtension.

(** What the local data provider answers, lines 159-162. *)
Module LocalInitData.
Record t : Type := mk {
  autoStart : bool;
  extensions : list IExtensionDescription
}.
End LocalInitData.

(** [getInitData] of [_createLocalExtensionHostDataProvider], lines 156-163.
    The argument is how [this.getExtensions()] settles. *)
Definition localGetInitData {Registry : Type}
    (getExtensions : outcome (list IExtensionDescription))
    : Async Registry LocalInitData.t :=
  await (settle getExtensions) (fun allExtensions =>
  fun this =>
    let localWebWorkerExtensions :=
      filterByRunningLocation allExtensions (_runningLocation this)
        ExtensionRunningLocation.LocalWebWorker in
    (Fulfilled {| LocalInitData.autoStart := true;
                  LocalInitData.extensions := localWebWorkerExtensions |},
     this)).

(** [getInitData] of [_createRemoteExtensionHostDataProvider], lines
    170-173.  The argument is how [whenInstalledExtensionsRegistered()]
    settles; the [!] of the source is erased at run time, so a [null] field
    is answered as it is. *)
Definition remoteGetInitData {Registry : Type}
    (whenInstalledExtensionsRegistered : outcome bool)
    : Async Registry (option IRemoteExtensionHostInitData) :=
  await (settle whenInstalledExtensionsRegistered) (fun _ =>
  fun this => (Fulfilled (_remoteInitData this), this)).

(** The tags that some rule of the resolver looks at. *)
Definition knownKind (tag : ExtensionKind) : bool :=
  String.eqb tag "ui" || String.eqb tag "workspace" || String.eqb tag "web".


(** * Properties *)

(** ** The resolver, tag by tag *)

Lemma eqb_true_iff (s t : string) : String.eqb s t = true ↔ s = t.
Proof. apply String.eqb_eq. Qed.

Lemma pickRunningLocation_skip tag rest l r :
  ¬ tagMatches tag l r →
  pickRunningLocation (tag :: rest) l r = pickRunningLocation rest l r.
Proof.
  intros Hno. simpl.
  destruct (String.eqb tag "ui") eqn:Hui.
  { apply eqb_true_iff in Hui. subst tag. destruct r.
    - exfalso. apply Hno. left. auto.
    - reflexivity. }
  destruct (String.eqb tag "workspace") eqn:Hws.
  { apply eqb_true_iff in Hws. subst tag. destruct r.
    - exfalso. apply Hno. left. auto.
    - reflexivity. }
  destruct (String.eqb tag "web") eqn:Hweb; simpl; [|done].
  apply eqb_true_iff in Hweb. destruct l; simpl; [|done].
  exfalso. apply Hno. right. auto.
Qed.

Lemma pickRunningLocation_remote_tag tag rest l :
  tag = "ui" ∨ tag = "workspace" →
  pickRunningLocation (tag :: rest) l true = ExtensionRunningLocation.Remote.
Proof. intros [-> | ->]; reflexivity. Qed.

Lemma tagMatches_dec tag l r : tagMatches tag l r ∨ ¬ tagMatches tag l r.
Proof.
  unfold tagMatches.
  destruct (decide (tag = "ui")), (decide (tag = "workspace")),
    (decide (tag = "web")), l, r; intuition congruence.
Qed.

(** C1.  [pickRunningLocation] is a total first-match scan.  On the empty
    tag list it answers [None].  On any tag list either there is a first
    matching tag, every tag before it does not match, and the answer is
    [Remote] when that tag is [ui] or [workspace] (installed remotely)
    and [LocalWebWorker] when it is [web] (installed locally); or no tag
    matches and the answer is [None].  Being a structural recursion on the
    tag list, it answers on every input. *)
Theorem pickRunningLocation_first_match
    (extensionKinds : list ExtensionKind) (isInstalledLocally isInstalledRemotely : bool) :
  pickRunningLocation [] isInstalledLocally isInstalledRemotely
    = ExtensionRunningLocation.None
  ∧ ((∃ before tag after,
        extensionKinds = before ++ tag :: after
        ∧ Forall (fun t => ¬ tagMatches t isInstalledLocally isInstalledRemotely) before
        ∧ (((tag = "ui" ∨ tag = "workspace") ∧ isInstalledRemotely = true
            ∧ pickRunningLocation extensionKinds isInstalledLocally isInstalledRemotely
                = ExtensionRunningLocation.Remote)
           ∨ (tag = "web" ∧ isInstalledLocally = true
              ∧ pickRunningLocation extensionKinds isInstalledLocally isInstalledRemotely
                  = ExtensionRunningLocation.LocalWebWorker)))
     ∨ (Forall (fun t => ¬ tagMatches t isInstalledLocally isInstalledRemotely) extensionKinds
        ∧ pickRunningLocation extensionKinds isInstalledLocally isInstalledRemotely
            = ExtensionRunningLocation.None)).
Proof.
  split; [reflexivity|].
  induction extensionKinds as [|tag rest IH].
  - right. split; [constructor | reflexivity].
  - destruct (tagMatches_dec tag isInstalledLocally isInstalledRemotely) as [Hm | Hno].
    + left. exists [], tag, rest. split; [reflexivity|]. split; [constructor|].
      destruct Hm as [[Htag ->] | [-> ->]].
      * left. split; [done|]. split; [done|].
        by apply pickRunningLocation_remote_tag.
      * right. split; [done|]. split; [done|].
        destruct isInstalledRemotely; reflexivity.
    + rewrite (pickRunningLocation_skip _ _ _ _ Hno).
      destruct IH as [(before & t & after & -> & Hbefore & Hres) | [Hall Hres]].
      * left. exists (tag :: before), t, after.
        split; [reflexivity|]. split; [by constructor|]. exact Hres.
      * right. split; [by constructor | exact Hres].
Qed.

(** ** Maps and sets filled by a [forEach] *)

Lemma keySet_from (s : gset string) (extensions : list IExtensionDescription) (k : string) :
  k ∈ foldl (fun s ext => {[ toKey (identifier ext) ]} ∪ s) s extensions
  ↔ k ∈ s ∨ ∃ e, e ∈ extensions ∧ toKey (identifier e) = k.
Proof.
  revert s. induction extensions as [|a l IH]; intros s; simpl.
  - split; [auto|]. intros [H | (e & He & _)]; [done | by apply elem_of_nil in He].
  - rewrite IH. rewrite elem_of_union, elem_of_singleton. split.
    + intros [[-> | H] | (e & He & Hk)].
      * right. exists a. split; [left | done].
      * by left.
      * right. exists e. split; [by right | done].
    + intros [H | (e & He & Hk)]; [left; by right|].
      apply elem_of_cons in He as [-> | He]; [left; left; done|].
      right. by exists e.
Qed.

Lemma elem_of_keySet (extensions : list IExtensionDescription) (k : string) :
  k ∈ keySet extensions ↔ ∃ e, e ∈ extensions ∧ toKey (identifier e) = k.
Proof.
  unfold keySet. rewrite keySet_from. split; [|by right].
  intros [H | H]; [by apply not_elem_of_empty in H | done].
Qed.

Lemma keySet_Permutation (l1 l2 : list IExtensionDescription) :
  l1 ≡ₚ l2 → keySet l1 = keySet l2.
Proof.
  intros Hp. apply set_eq. intros k. rewrite !elem_of_keySet.
  split; intros (e & He & Hk); exists e; split; try done.
  - by rewrite <- Hp.
  - by rewrite Hp.
Qed.

Lemma lastWithKey_cons k a (l : list IExtensionDescription) :
  lastWithKey k (a :: l)
  = match lastWithKey k l with
    | Some e => Some e
    | None => if decide (toKey (identifier a) = k) then Some a else None
    end.
Proof.
  unfold lastWithKey. rewrite filter_cons.
  destruct (decide (toKey (identifier a) = k)) as [Heq | Hne].
  - destruct (filter _ l) as [|b l'] eqn:Hf; [done|].
    rewrite last_cons. by destruct (last (b :: l')).
  - by destruct (last (filter _ l)).
Qed.

Lemma lastWithKey_Some k (l : list IExtensionDescription) e :
  lastWithKey k l = Some e → e ∈ l ∧ toKey (identifier e) = k.
Proof.
  induction l as [|a l IH]; [done|].
  rewrite lastWithKey_cons. destruct (lastWithKey k l) as [e'|].
  - intros [= ->]. destruct (IH eq_refl) as [Hin Hk]. split; [by right | done].
  - case_decide; [|done]. intros [= ->]. split; [left | done].
Qed.

Lemma lastWithKey_None k (l : list IExtensionDescription) :
  lastWithKey k l = None ↔ k ∉ keySet l.
Proof.
  rewrite elem_of_keySet. induction l as [|a l IH].
  - split; [|done]. intros _ (e & He & _). by apply elem_of_nil in He.
  - rewrite lastWithKey_cons. destruct (lastWithKey k l) as [e'|] eqn:Hl.
    + split; [done|]. intros Hno. exfalso. apply Hno.
      apply lastWithKey_Some in Hl as [Hin Hk]. exists e'. split; [by right | done].
    + case_decide as Hk.
      * split; [done|]. intros Hno. exfalso. apply Hno. exists a. split; [left | done].
      * split; [|done]. intros _ (e & He & Hke).
        apply elem_of_cons in He as [-> | He]; [done|].
        apply IH; [done|]. by exists e.
Qed.

Lemma lastWithKey_is_Some k (l : list IExtensionDescription) :
  k ∈ keySet l → ∃ e, lastWithKey k l = Some e.
Proof.
  intros Hin. destruct (lastWithKey k l) as [e|] eqn:Hl; [by exists e|].
  by apply lastWithKey_None in Hl.
Qed.

(** [forEach(ext => map.set(toKey(ext.identifier), f(ext)))]: each key ends
    with the value of its last carrier, other keys are untouched. *)
Lemma lookup_forEach_set {V : Type} (f : IExtensionDescription → V)
    (extensions : list IExtensionDescription) (m : gmap string V) (k : string) :
  foldl (fun m ext => <[ toKey (identifier ext) := f ext ]> m) m extensions !! k
  = match lastWithKey k extensions with
    | Some e => Some (f e)
    | None => m !! k
    end.
Proof.
  revert m. induction extensions as [|a l IH]; intros m; [done|].
  simpl. rewrite IH, lastWithKey_cons.
  destruct (lastWithKey k l); [done|].
  case_decide as Hk.
  - subst k. by rewrite lookup_insert_eq.
  - by rewrite lookup_insert_ne.
Qed.

(** Each entry of the table built by [determineRunningLocation]: a key of
    either catalog holds the resolver's answer on the kinds registered for
    it and on its membership in the two catalogs; other keys are absent. *)
Lemma lookup_determineRunningLocation localExtensions remoteExtensions
    (allExtensionKinds : gmap string (list ExtensionKind)) hasRemote (k : string) :
  determineRunningLocation localExtensions remoteExtensions allExtensionKinds hasRemote !! k
  = if decide (k ∈ keySet localExtensions ∪ keySet remoteExtensions)
    then Some (pickRunningLocation (default [] (allExtensionKinds !! k))
                 (bool_decide (k ∈ keySet localExtensions))
                 (bool_decide (k ∈ keySet remoteExtensions)))
    else None.
Proof.
  unfold determineRunningLocation. rewrite !lookup_forEach_set, lookup_empty.
  destruct (lastWithKey k remoteExtensions) as [e|] eqn:Hr.
  - pose proof (lastWithKey_Some _ _ _ Hr) as [Hin Hk].
    rewrite decide_True; [by rewrite Hk|].
    apply elem_of_union_r, elem_of_keySet. by exists e.
  - apply lastWithKey_None in Hr.
    destruct (lastWithKey k localExtensions) as [e|] eqn:Hl.
    + pose proof (lastWithKey_Some _ _ _ Hl) as [Hin Hk].
      rewrite decide_True; [by rewrite Hk|].
      apply elem_of_union_l, elem_of_keySet. by exists e.
    + apply lastWithKey_None in Hl. rewrite decide_False; [done|].
      by intros [?|?]%elem_of_union.
Qed.

(** The kinds registered by [_determineRunningLocation]: remote records
    overwrite local ones. *)
Lemma lookup_allExtensionKinds (getExtensionKind : IExtensionDescription → list ExtensionKind)
    localExtensions remoteExtensions (k : string) :
  foldl (fun m ext => <[ toKey (identifier ext) := getExtensionKind ext ]> m)
    (foldl (fun m ext => <[ toKey (identifier ext) := getExtensionKind ext ]> m)
       (∅ : gmap string (list ExtensionKind)) localExtensions)
    remoteExtensions !! k
  = match lastWithKey k remoteExtensions with
    | Some e => Some (getExtensionKind e)
    | None => getExtensionKind <$> lastWithKey k localExtensions
    end.
Proof.
  rewrite !lookup_forEach_set, lookup_empty.
  destruct (lastWithKey k remoteExtensions); [done|].
  by destruct (lastWithKey k localExtensions).
Qed.

(** Each entry of the table built by [_determineRunningLocation]. *)
Lemma lookup__determineRunningLocation
    (getExtensionKind : IExtensionDescription → list ExtensionKind)
    localExtensions remoteExtensions hasRemote (k : string) :
  _determineRunningLocation getExtensionKind localExtensions remoteExtensions hasRemote !! k
  = if decide (k ∈ keySet localExtensions ∪ keySet remoteExtensions)
    then Some (pickRunningLocation
                 (match lastWithKey k remoteExtensions with
                  | Some e => getExtensionKind e
                  | None => default [] (getExtensionKind <$> lastWithKey k localExtensions)
                  end)
                 (bool_decide (k ∈ keySet localExtensions))
                 (bool_decide (k ∈ keySet remoteExtensions)))
    else None.
Proof.
  unfold _determineRunningLocation.
  rewrite lookup_determineRunningLocation, lookup_allExtensionKinds.
  by destruct (lastWithKey k remoteExtensions).
Qed.

(** ** Placement of a [ui] extension *)

(** C3, as stated, fails: a [ui] extension that is installed locally only is
    placed nowhere, also when [hasRemote] is [true]. *)
Lemma ui_local_only_not_remote :
  E1_ui_local ∈ [E1_ui_local]
  ∧ ({[ "pub.e1" := ["ui"] ]} : gmap string (list ExtensionKind))
      !! toKey (identifier E1_ui_local) = Some ["ui"]
  ∧ determineRunningLocation [E1_ui_local] [] {[ "pub.e1" := ["ui"] ]} true
      !! toKey (identifier E1_ui_local) = Some ExtensionRunningLocation.None
  ∧ determineRunningLocation [E1_ui_local] [] {[ "pub.e1" := ["ui"] ]} true
      !! toKey (identifier E1_ui_local) ≠ Some ExtensionRunningLocation.Remote.
Proof.
  split; [left|]. split; [reflexivity|].
  assert (determineRunningLocation [E1_ui_local] [] {[ "pub.e1" := ["ui"] ]} true
            !! toKey (identifier E1_ui_local) = Some ExtensionRunningLocation.None) as H
    by (vm_compute; reflexivity).
  split; [exact H|]. rewrite H. discriminate.
Qed.

(** C3, amended.  An extension of the local catalog whose registered kinds
    are exactly [ui] is placed on the remote host exactly when its identity
    is also in the remote catalog, and nowhere otherwise; it is never placed
    on the local web worker, and the [hasRemote] flag plays no role. *)
Theorem ui_remote_iff_installed_remotely
    (localExtensions remoteExtensions : list IExtensionDescription)
    (allExtensionKinds : gmap string (list ExtensionKind)) (hasRemote : bool)
    (ext : IExtensionDescription) :
  ext ∈ localExtensions →
  allExtensionKinds !! toKey (identifier ext) = Some ["ui"] →
  determineRunningLocation localExtensions remoteExtensions allExtensionKinds hasRemote
    !! toKey (identifier ext)
  = Some (if bool_decide (toKey (identifier ext) ∈ keySet remoteExtensions)
          then ExtensionRunningLocation.Remote
          else ExtensionRunningLocation.None)
  ∧ determineRunningLocation localExtensions remoteExtensions allExtensionKinds hasRemote
      !! toKey (identifier ext) ≠ Some ExtensionRunningLocation.LocalWebWorker.
Proof.
  intros Hin Hkinds.
  assert (determineRunningLocation localExtensions remoteExtensions allExtensionKinds hasRemote
            !! toKey (identifier ext)
          = Some (if bool_decide (toKey (identifier ext) ∈ keySet remoteExtensions)
                  then ExtensionRunningLocation.Remote
                  else ExtensionRunningLocation.None)) as H.
  { rewrite lookup_determineRunningLocation, Hkinds.
    rewrite decide_True.
    - simpl. by destruct (bool_decide (_ ∈ keySet remoteExtensions)).
    - apply elem_of_union_l, elem_of_keySet. by exists ext. }
  split; [exact H|]. rewrite H. by case_bool_decide.
Qed.

Lemma ui_remote_iff_installed_remotely_witness :
  E1_ui_local ∈ [E1_ui_local; E2_web_local]
  ∧ ({[ "pub.e1" := ["ui"]; "pub.e2" := ["web"] ]} : gmap string (list ExtensionKind))
      !! toKey (identifier E1_ui_local) = Some ["ui"]
  ∧ determineRunningLocation [E1_ui_local; E2_web_local] [E1_ui_remote]
      {[ "pub.e1" := ["ui"]; "pub.e2" := ["web"] ]} true
      !! toKey (identifier E1_ui_local) = Some ExtensionRunningLocation.Remote.
Proof.
  split; [left|]. split; [vm_compute; reflexivity|].
  refine (eq_trans (proj1 (ui_remote_iff_installed_remotely
            [E1_ui_local; E2_web_local] [E1_ui_remote]
            {[ "pub.e1" := ["ui"]; "pub.e2" := ["web"] ]} true E1_ui_local _ _)) _).
  - left.
  - vm_compute; reflexivity.
  - vm_compute; reflexivity.
Defined.

(** ** Determinism and the unused flag *)

(** C7.  The table built by [determineRunningLocation] is a function of its
    inputs, and of the catalogs only up to the order of their records: two
    calls on the same kind map and flag, and on catalogs that list the same
    records (identical catalogs in particular), return the same table, that
    is the same entries with the same decision under every key.  The only
    order that matters is that of the tags inside [pickRunningLocation]. *)
Theorem determineRunningLocation_deterministic
    (localExtensions localExtensions' remoteExtensions remoteExtensions'
       : list IExtensionDescription)
    (allExtensionKinds : gmap string (list ExtensionKind)) (hasRemote : bool) :
  localExtensions ≡ₚ localExtensions' →
  remoteExtensions ≡ₚ remoteExtensions' →
  determineRunningLocation localExtensions remoteExtensions allExtensionKinds hasRemote
  = determineRunningLocation localExtensions' remoteExtensions' allExtensionKinds hasRemote.
Proof.
  intros Hl Hr. apply map_eq. intros k.
  rewrite !lookup_determineRunningLocation.
  by rewrite (keySet_Permutation _ _ Hl), (keySet_Permutation _ _ Hr).
Qed.

Lemma determineRunningLocation_deterministic_witness :
  [E1_ui_local; E2_web_local] ≡ₚ [E2_web_local; E1_ui_local]
  ∧ [E1_ui_remote] ≡ₚ [E1_ui_remote]
  ∧ determineRunningLocation [E1_ui_local; E2_web_local] [E1_ui_remote]
      {[ "pub.e1" := ["ui"]; "pub.e2" := ["web"] ]} true
    = determineRunningLocation [E2_web_local; E1_ui_local] [E1_ui_remote]
        {[ "pub.e1" := ["ui"]; "pub.e2" := ["web"] ]} true.
Proof.
  split; [apply perm_swap|]. split; [apply Permutation_refl|].
  apply determineRunningLocation_deterministic;
    [apply perm_swap | apply Permutation_refl].
Defined.

(** C9.  [hasRemote] does not influence the table: both table builders
    return the same table for [true] and for [false], and every entry is
    the resolver's answer on the kinds registered under the key and on the
    key's membership in the two catalogs. *)
Theorem hasRemote_has_no_influence
    (getExtensionKind : IExtensionDescription → list ExtensionKind)
    (localExtensions remoteExtensions : list IExtensionDescription)
    (allExtensionKinds : gmap string (list ExtensionKind)) :
  determineRunningLocation localExtensions remoteExtensions allExtensionKinds true
  = determineRunningLocation localExtensions remoteExtensions allExtensionKinds false
  ∧ _determineRunningLocation getExtensionKind localExtensions remoteExtensions true
    = _determineRunningLocation getExtensionKind localExtensions remoteExtensions false
  ∧ ∀ (hasRemote : bool) (k : string),
      determineRunningLocation localExtensions remoteExtensions allExtensionKinds hasRemote !! k
      = if decide (k ∈ keySet localExtensions ∪ keySet remoteExtensions)
        then Some (pickRunningLocation (default [] (allExtensionKinds !! k))
                     (bool_decide (k ∈ keySet localExtensions))
                     (bool_decide (k ∈ keySet remoteExtensions)))
        else None.
Proof.
  split; [reflexivity|]. split; [reflexivity|].
  intros hasRemote k. apply lookup_determineRunningLocation.
Qed.

(** ** An identity in both catalogs *)

(** C10.  For an identity (a key, so compared without case) that is in both
    catalogs, [_determineRunningLocation] resolves the placement on the
    kinds of a remote record, the last remote record with that key, with
    both installation flags set.  The kinds of the local records do not
    matter: changing the local catalog to one with the same identities, or
    changing the kinds of records outside the remote catalog, leaves the
    entry as it is. *)
Theorem remote_record_kinds_win
    (getExtensionKind getExtensionKind' : IExtensionDescription → list ExtensionKind)
    (localExtensions localExtensions' remoteExtensions : list IExtensionDescription)
    (hasRemote : bool) (k : string) :
  k ∈ keySet localExtensions →
  k ∈ keySet remoteExtensions →
  keySet localExtensions' = keySet localExtensions →
  (∀ e, e ∈ remoteExtensions → getExtensionKind' e = getExtensionKind e) →
  (∃ e, e ∈ remoteExtensions ∧ toKey (identifier e) = k
        ∧ lastWithKey k remoteExtensions = Some e
        ∧ _determineRunningLocation getExtensionKind localExtensions remoteExtensions hasRemote
            !! k
          = Some (pickRunningLocation (getExtensionKind e) true true))
  ∧ _determineRunningLocation getExtensionKind' localExtensions' remoteExtensions hasRemote !! k
    = _determineRunningLocation getExtensionKind localExtensions remoteExtensions hasRemote !! k.
Proof.
  intros Hl Hr Hkeys Hagree.
  destruct (lastWithKey_is_Some _ _ Hr) as [e He].
  pose proof (lastWithKey_Some _ _ _ He) as [Hin Hk].
  rewrite !lookup__determineRunningLocation, He, Hkeys.
  rewrite !decide_True by (by apply elem_of_union_r).
  rewrite !bool_decide_eq_true_2 by done.
  split; [|by rewrite Hagree].
  exists e. repeat split; done.
Qed.

Lemma remote_record_kinds_win_witness :
  "pub.e1" ∈ keySet [E1_web_local; E2_web_local]
  ∧ "pub.e1" ∈ keySet [E1_ui_remote]
  ∧ _determineRunningLocation extensionKind [E1_web_local; E2_web_local] [E1_ui_remote] true
      !! "pub.e1"
    = Some ExtensionRunningLocation.Remote.
Proof.
  assert ("pub.e1" ∈ keySet [E1_web_local; E2_web_local]) as Hl.
  { apply elem_of_keySet. exists E1_web_local. split; [left | reflexivity]. }
  assert ("pub.e1" ∈ keySet [E1_ui_remote]) as Hr.
  { apply elem_of_keySet. exists E1_ui_remote. split; [left | reflexivity]. }
  split; [exact Hl|]. split; [exact Hr|].
  destruct (proj1 (remote_record_kinds_win extensionKind extensionKind
              [E1_web_local; E2_web_local] [E1_web_local; E2_web_local] [E1_ui_remote]
              true "pub.e1" Hl Hr eq_refl (fun _ _ => eq_refl)))
    as (e & He & _ & _ & Hres).
  apply list_elem_of_singleton in He. subst e. exact Hres.
Defined.

(** ** The two partition loops of [_updateExtensionsOnExtHosts] *)

Lemma lastWithKey_NoDup (l : list IExtensionDescription) e :
  NoDup ((fun x => toKey (identifier x)) <$> l) →
  e ∈ l →
  lastWithKey (toKey (identifier e)) l = Some e.
Proof.
  induction l as [|a l IH]; intros Hnd Hin; [by apply elem_of_nil in Hin|].
  rewrite fmap_cons in Hnd. apply NoDup_cons in Hnd as [Hfresh Hnd].
  rewrite lastWithKey_cons.
  apply elem_of_cons in Hin as [-> | Hin].
  - assert (lastWithKey (toKey (identifier a)) l = None) as ->.
    { apply lastWithKey_None. rewrite elem_of_keySet. intros (x & Hx & Hk).
      apply Hfresh. apply list_elem_of_fmap. by exists x. }
    by rewrite decide_True.
  - by rewrite (IH Hnd Hin).
Qed.

Lemma same_key_NoDup (l : list IExtensionDescription) e1 e2 :
  NoDup ((fun x => toKey (identifier x)) <$> l) →
  e1 ∈ l → e2 ∈ l →
  toKey (identifier e1) = toKey (identifier e2) →
  e1 = e2.
Proof.
  intros Hnd H1 H2 Hk.
  pose proof (lastWithKey_NoDup l e1 Hnd H1) as L1.
  pose proof (lastWithKey_NoDup l e2 Hnd H2) as L2.
  rewrite Hk in L1. congruence.
Qed.

Section Partition.

Variable getExtensionKind : IExtensionDescription → list ExtensionKind.

(** The add loop pushes each record to the list of its own decision and
    writes that decision under the record's key. *)
Lemma partitionToAdd_from (toAdd localToAdd remoteToAdd : list IExtensionDescription)
    (m : gmap string ExtensionRunningLocation.t) :
  foldl (addStep getExtensionKind) (localToAdd, remoteToAdd, m) toAdd
  = (localToAdd
       ++ filter (fun e => addedRunningLocation getExtensionKind e = ExtensionRunningLocation.LocalWebWorker) toAdd,
     remoteToAdd
       ++ filter (fun e => addedRunningLocation getExtensionKind e = ExtensionRunningLocation.Remote) toAdd,
     foldl (fun m e => <[ toKey (identifier e) := addedRunningLocation getExtensionKind e ]> m) m toAdd).
Proof.
  revert localToAdd remoteToAdd m.
  induction toAdd as [|a l IH]; intros la ra m; simpl.
  - by rewrite !app_nil_r.
  - rewrite !filter_cons.
    destruct (addedRunningLocation getExtensionKind a) eqn:Ha; rewrite IH; simpl;
      rewrite <- ?app_assoc; done.
Qed.

Lemma partitionToAdd_eq (toAdd : list IExtensionDescription)
    (m : gmap string ExtensionRunningLocation.t) :
  partitionToAdd getExtensionKind toAdd m
  = (filter (fun e => addedRunningLocation getExtensionKind e = ExtensionRunningLocation.LocalWebWorker) toAdd,
     filter (fun e => addedRunningLocation getExtensionKind e = ExtensionRunningLocation.Remote) toAdd,
     foldl (fun m e => <[ toKey (identifier e) := addedRunningLocation getExtensionKind e ]> m) m toAdd).
Proof. unfold partitionToAdd. by rewrite partitionToAdd_from. Qed.

(** The map left by the add loop: the decision of the last record with
    the key, or the old entry. *)
Lemma lookup_partitionToAdd (toAdd : list IExtensionDescription)
    (m : gmap string ExtensionRunningLocation.t) (k : string) :
  (partitionToAdd getExtensionKind toAdd m).2 !! k
  = match lastWithKey k toAdd with
    | Some e => Some (addedRunningLocation getExtensionKind e)
    | None => m !! k
    end.
Proof. rewrite partitionToAdd_eq. simpl. apply lookup_forEach_set. Qed.

End Partition.

(** [forEach(id => map.delete(toKey(id)))] *)
Lemma lookup_forEach_delete {V : Type} (ids : list ExtensionIdentifier)
    (m : gmap string V) (k : string) :
  foldl (fun m id => delete (toKey id) m) m ids !! k
  = if decide (k ∈ toKey <$> ids) then None else m !! k.
Proof.
  revert m. induction ids as [|a l IH]; intros m.
  - case_decide as H; [by apply elem_of_nil in H | done].
  - simpl foldl. rewrite IH, fmap_cons.
    destruct (decide (k = toKey a)) as [-> | Hne].
    + rewrite lookup_delete_eq. rewrite (decide_True (P := _ ∈ _ :: _)) by left.
      by case_decide.
    + rewrite lookup_delete_ne by done.
      destruct (decide (k ∈ toKey <$> l)) as [Hin | Hout].
      * by rewrite decide_True by (by right).
      * rewrite decide_False; [done|]. by intros [?|?]%elem_of_cons.
Qed.

(** The remove loop, from any accumulator: the map loses the keys of the
    removed identifiers; a key is added to the local (remote) list exactly
    when it is the key of a removed identifier and the starting map held
    [LocalWebWorker] ([Remote]) under it. *)
Lemma partitionToRemove_from (toRemove localToRemove remoteToRemove : list ExtensionIdentifier)
    (m : gmap string ExtensionRunningLocation.t) :
  (foldl removeStep (localToRemove, remoteToRemove, m) toRemove).2
  = foldl (fun m id => delete (toKey id) m) m toRemove
  ∧ (∀ k, k ∈ toKey <$> (foldl removeStep (localToRemove, remoteToRemove, m) toRemove).1.1
          ↔ k ∈ toKey <$> localToRemove
            ∨ (k ∈ toKey <$> toRemove
               ∧ m !! k = Some ExtensionRunningLocation.LocalWebWorker))
  ∧ (∀ k, k ∈ toKey <$> (foldl removeStep (localToRemove, remoteToRemove, m) toRemove).1.2
          ↔ k ∈ toKey <$> remoteToRemove
            ∨ (k ∈ toKey <$> toRemove
               ∧ m !! k = Some ExtensionRunningLocation.Remote)).
Proof.
  revert localToRemove remoteToRemove m.
  induction toRemove as [|a l IH]; intros lr rr m.
  - simpl. split; [done|].
    split; intros k; (split; [by left|]);
      (intros [H | [H _]]; [done | by apply elem_of_nil in H]).
  - change (foldl removeStep (lr, rr, m) (a :: l))
      with (foldl removeStep (removeStep (lr, rr, m) a) l).
    change (foldl (fun m id => delete (toKey id) m) m (a :: l))
      with (foldl (fun m id => delete (toKey id) m) (delete (toKey a) m) l).
    assert (∃ lr1 rr1,
      removeStep (lr, rr, m) a = (lr1, rr1, delete (toKey a) m)
      ∧ (∀ k, k ∈ toKey <$> lr1
              ↔ k ∈ toKey <$> lr
                ∨ (k = toKey a ∧ m !! k = Some ExtensionRunningLocation.LocalWebWorker))
      ∧ (∀ k, k ∈ toKey <$> rr1
              ↔ k ∈ toKey <$> rr
                ∨ (k = toKey a ∧ m !! k = Some ExtensionRunningLocation.Remote)))
      as (lr1 & rr1 & -> & Hlr1 & Hrr1).
    { unfold removeStep.
      destruct (m !! toKey a) as [[]|] eqn:Hm.
      - exists lr, rr. split; [done|].
        split; intros k; (split; [by left|]); intros [H | [-> H]]; congruence.
      - exists (lr ++ [a]), rr. split; [done|]. split; intros k.
        + rewrite fmap_app, elem_of_app. simpl. rewrite list_elem_of_singleton.
          split; [intros [H | ->]; [by left | by right]|].
          intros [H | [-> _]]; [by left | by right].
        + split; [by left|]. intros [H | [-> H]]; congruence.
      - exists lr, (rr ++ [a]). split; [done|]. split; intros k.
        + split; [by left|]. intros [H | [-> H]]; congruence.
        + rewrite fmap_app, elem_of_app. simpl. rewrite list_elem_of_singleton.
          split; [intros [H | ->]; [by left | by right]|].
          intros [H | [-> _]]; [by left | by right].
      - exists lr, rr. split; [done|].
        split; intros k; (split; [by left|]); intros [H | [-> H]]; congruence. }
    destruct (IH lr1 rr1 (delete (toKey a) m)) as (Hm & Hl & Hr).
    split; [exact Hm|].
    split; intros k; [rewrite Hl, Hlr1 | rewrite Hr, Hrr1];
      rewrite fmap_cons, elem_of_cons;
      (destruct (decide (k = toKey a)) as [-> | Hne];
       [rewrite lookup_delete_eq | rewrite lookup_delete_ne by done]);
      intuition congruence.
Qed.

(** ** Routing of added records *)

(** C5, as stated, fails: two added records with one identity, a local
    [web] one and a remote [ui] one, put that identity in both add lists;
    and the local record is sent to the web worker although the table ends
    with [Remote] under its key. *)
Lemma one_identity_in_both_add_lists :
  partitionToAdd extensionKind [E1_web_local; E1_ui_remote] ∅
  = ([E1_web_local], [E1_ui_remote],
     {[ "pub.e1" := ExtensionRunningLocation.Remote ]})
  ∧ toKey (identifier E1_web_local) = "pub.e1"
  ∧ toKey (identifier E1_ui_remote) = "pub.e1".
Proof. split; [vm_compute; reflexivity|]. split; reflexivity. Qed.

(** C5, amended.  When the added records have pairwise distinct identities,
    the add loop leaves in the table, under each added record's key, the
    decision it took for that record ([pickRunningLocation] on its kinds and
    on whether its location is remote), and routes the record by that
    decision: [None] to no list, [LocalWebWorker] to the local add list
    only, [Remote] to the remote add list only.  No record is listed twice
    and no identity is in both add lists. *)
Theorem added_routed_by_decision
    (getExtensionKind : IExtensionDescription → list ExtensionKind)
    (toAdd : list IExtensionDescription)
    (m : gmap string ExtensionRunningLocation.t) (e : IExtensionDescription) :
  NoDup ((fun x => toKey (identifier x)) <$> toAdd) →
  e ∈ toAdd →
  let '(localToAdd, remoteToAdd, table) := partitionToAdd getExtensionKind toAdd m in
  table !! toKey (identifier e) = Some (addedRunningLocation getExtensionKind e)
  ∧ match addedRunningLocation getExtensionKind e with
    | ExtensionRunningLocation.None => (e ∉ localToAdd) ∧ (e ∉ remoteToAdd)
    | ExtensionRunningLocation.LocalWebWorker => e ∈ localToAdd ∧ e ∉ remoteToAdd
    | ExtensionRunningLocation.Remote => e ∈ remoteToAdd ∧ e ∉ localToAdd
    end
  ∧ NoDup localToAdd
  ∧ NoDup remoteToAdd
  ∧ ∀ k, ¬ (k ∈ ((fun x => toKey (identifier x)) <$> localToAdd)
            ∧ k ∈ ((fun x => toKey (identifier x)) <$> remoteToAdd)).
Proof.
  intros Hnd Hin.
  pose proof (lookup_partitionToAdd getExtensionKind toAdd m (toKey (identifier e))) as Hlk.
  rewrite partitionToAdd_eq in *. simpl in Hlk.
  split.
  { by rewrite Hlk, (lastWithKey_NoDup toAdd e Hnd Hin). }
  split.
  { destruct (addedRunningLocation getExtensionKind e) eqn:He;
      rewrite !list_elem_of_filter; intuition congruence. }
  pose proof (NoDup_fmap_1 _ _ Hnd) as Hnd'.
  split; [by apply NoDup_filter|]. split; [by apply NoDup_filter|].
  intros k [Hl Hr].
  apply list_elem_of_fmap in Hl as (e1 & -> & [H1 Hin1]%list_elem_of_filter).
  apply list_elem_of_fmap in Hr as (e2 & Hk & [H2 Hin2]%list_elem_of_filter).
  assert (e1 = e2) by (by apply (same_key_NoDup toAdd)).
  congruence.
Qed.

Lemma added_routed_by_decision_witness :
  NoDup ((fun x => toKey (identifier x)) <$> [E1_ui_remote; E2_web_local])
  ∧ E2_web_local ∈ [E1_ui_remote; E2_web_local]
  ∧ (let '(localToAdd, remoteToAdd, table) :=
       partitionToAdd extensionKind [E1_ui_remote; E2_web_local] ∅ in
     table !! toKey (identifier E2_web_local)
     = Some (addedRunningLocation extensionKind E2_web_local)
     ∧ match addedRunningLocation extensionKind E2_web_local with
       | ExtensionRunningLocation.None =>
           (E2_web_local ∉ localToAdd) ∧ (E2_web_local ∉ remoteToAdd)
       | ExtensionRunningLocation.LocalWebWorker =>
           E2_web_local ∈ localToAdd ∧ E2_web_local ∉ remoteToAdd
       | ExtensionRunningLocation.Remote =>
           E2_web_local ∈ remoteToAdd ∧ E2_web_local ∉ localToAdd
       end
     ∧ NoDup localToAdd
     ∧ NoDup remoteToAdd
     ∧ ∀ k, ¬ (k ∈ ((fun x => toKey (identifier x)) <$> localToAdd)
               ∧ k ∈ ((fun x => toKey (identifier x)) <$> remoteToAdd))).
Proof.
  assert (NoDup ((fun x => toKey (identifier x)) <$> [E1_ui_remote; E2_web_local])) as Hnd.
  { apply (bool_decide_unpack _). vm_compute. exact I. }
  assert (E2_web_local ∈ [E1_ui_remote; E2_web_local]) as Hin by (right; left).
  split; [exact Hnd|]. split; [exact Hin|].
  exact (added_routed_by_decision extensionKind [E1_ui_remote; E2_web_local] ∅
           E2_web_local Hnd Hin).
Defined.

(** ** Routing of removed identifiers *)

(** C6, as stated, fails: an identity that the same pass also adds is
    routed by the decision the add loop has just written, not by its
    previous one.  The service holds [Remote] for [pub.e1]; the pass adds a
    local [web] record of it and removes it; the identifier goes to the
    local remove list, and the remote host is not called. *)
Lemma added_identity_removed_by_new_decision :
  mkExtensionIdentifier "Pub.E1" ∈ [mkExtensionIdentifier "Pub.E1"]
  ∧ ({[ "pub.e1" := ExtensionRunningLocation.Remote ]}
       : gmap string ExtensionRunningLocation.t)
      !! toKey (mkExtensionIdentifier "Pub.E1") = Some ExtensionRunningLocation.Remote
  ∧ partitionToRemove [mkExtensionIdentifier "Pub.E1"]
      (partitionToAdd extensionKind [E1_web_local]
         {[ "pub.e1" := ExtensionRunningLocation.Remote ]}).2
    = ([mkExtensionIdentifier "Pub.E1"], [], ∅)
  ∧ deltaCalls
      (_updateExtensionsOnExtHosts extensionKind [E1_web_local]
         [mkExtensionIdentifier "Pub.E1"]
         (mkService None {[ "pub.e1" := ExtensionRunningLocation.Remote ]} tt
            (fun _ => Some (mkManager (fun _ _ => Fulfilled tt))) [] [])).2
    = [mkDeltaCall ExtensionHostKind.LocalWebWorker [E1_web_local]
         [mkExtensionIdentifier "Pub.E1"]].
Proof.
  split; [left|]. split; [reflexivity|]. split; vm_compute; reflexivity.
Qed.

(** C6, amended.  In one pass of [_updateExtensionsOnExtHosts] the remove
    loop reads each identifier's entry in the running-location map before
    it deletes it, and routes by the entry the map holds when the loop
    starts, that is once the add loop of the same pass has written its
    decisions ([previous] below).  An identity of [toRemove] is in the
    local remove list exactly when [previous] holds [LocalWebWorker] for
    it, in the remote remove list exactly when [previous] holds [Remote],
    and in neither list when [previous] holds [None] or no entry.  For an
    identity that is not among the added records, [previous] is the entry
    the service held before the pass.  After the loop the entry is gone. *)
Theorem removed_routed_by_previous_decision
    (getExtensionKind : IExtensionDescription → list ExtensionKind)
    (toAdd : list IExtensionDescription) (toRemove : list ExtensionIdentifier)
    (m : gmap string ExtensionRunningLocation.t) (extensionId : ExtensionIdentifier) :
  extensionId ∈ toRemove →
  let previous := (partitionToAdd getExtensionKind toAdd m).2 in
  let '(localToRemove, remoteToRemove, table) := partitionToRemove toRemove previous in
  (toKey extensionId ∈ toKey <$> localToRemove
     ↔ previous !! toKey extensionId = Some ExtensionRunningLocation.LocalWebWorker)
  ∧ (toKey extensionId ∈ toKey <$> remoteToRemove
     ↔ previous !! toKey extensionId = Some ExtensionRunningLocation.Remote)
  ∧ (previous !! toKey extensionId = Some ExtensionRunningLocation.None
     ∨ previous !! toKey extensionId = None →
     (toKey extensionId ∉ toKey <$> localToRemove)
     ∧ (toKey extensionId ∉ toKey <$> remoteToRemove))
  ∧ ((toKey extensionId ∉ (fun x => toKey (identifier x)) <$> toAdd) →
     previous !! toKey extensionId = m !! toKey extensionId)
  ∧ table !! toKey extensionId = None.
Proof.
  intros Hin previous.
  assert (toKey extensionId ∈ toKey <$> toRemove) as Hkin
    by (by apply list_elem_of_fmap_2).
  pose proof (partitionToRemove_from toRemove [] [] previous) as (Hm & Hl & Hr).
  fold (partitionToRemove toRemove previous) in Hm, Hl, Hr.
  destruct (partitionToRemove toRemove previous) as [[lr rr] table].
  simpl in Hm, Hl, Hr.
  assert (∀ k, k ∉ toKey <$> ([] : list ExtensionIdentifier)) as Hnil
    by (intros k; apply not_elem_of_nil).
  split; [rewrite Hl; pose proof (Hnil (toKey extensionId)); intuition|].
  split; [rewrite Hr; pose proof (Hnil (toKey extensionId)); intuition|].
  split.
  { intros Hnone. rewrite Hl, Hr. pose proof (Hnil (toKey extensionId)).
    split; intros [? | [_ ?]]; [done | | done |]; destruct Hnone; congruence. }
  split.
  { intros Hnotadded. subst previous. rewrite lookup_partitionToAdd.
    destruct (lastWithKey (toKey extensionId) toAdd) as [e|] eqn:He; [|done].
    exfalso. apply Hnotadded. apply lastWithKey_Some in He as [He Hk].
    apply list_elem_of_fmap. by exists e. }
  rewrite Hm, lookup_forEach_delete. by rewrite decide_True.
Qed.

Lemma removed_routed_by_previous_decision_witness :
  mkExtensionIdentifier "PUB.E2" ∈ [mkExtensionIdentifier "PUB.E2"]
  ∧ (let previous :=
       (partitionToAdd extensionKind [E1_ui_remote]
          {[ "pub.e2" := ExtensionRunningLocation.LocalWebWorker ]}).2 in
     let '(localToRemove, remoteToRemove, table) :=
       partitionToRemove [mkExtensionIdentifier "PUB.E2"] previous in
     toKey (mkExtensionIdentifier "PUB.E2") ∈ toKey <$> localToRemove
     ∧ table !! toKey (mkExtensionIdentifier "PUB.E2") = None).
Proof.
  assert (mkExtensionIdentifier "PUB.E2" ∈ [mkExtensionIdentifier "PUB.E2"]) as Hin by left.
  split; [exact Hin|].
  pose proof (removed_routed_by_previous_decision extensionKind [E1_ui_remote]
                [mkExtensionIdentifier "PUB.E2"]
                {[ "pub.e2" := ExtensionRunningLocation.LocalWebWorker ]}
                (mkExtensionIdentifier "PUB.E2") Hin) as H.
  cbv zeta in H |- *.
  destruct (partitionToRemove _ _) as [[lr rr] table].
  destruct H as (Hl & _ & _ & _ & Hgone).
  split; [|exact Hgone]. apply Hl. vm_compute. reflexivity.
Defined.

(** ** Dispatch of the two deltas *)

Section Dispatch.

Context {Registry : Type}.
Variable getExtensionKind : IExtensionDescription → list ExtensionKind.

(** One guarded dispatch: its outcome, the call it appends, and nothing
    else changed. *)
Lemma dispatch_run (kind : ExtensionHostKind.t) (toAdd : list IExtensionDescription)
    (toRemove : list ExtensionIdentifier) (this : ExtensionService Registry) :
  dispatch kind toAdd toRemove this
  = (dispatchOutcome (_extensionHostManagers this) kind toAdd toRemove,
     mkService (_remoteInitData this) (_runningLocation this) (_registry this)
       (_extensionHostManagers this)
       (deltaCalls this
          ++ dispatchCalls (_extensionHostManagers this) kind toAdd toRemove)
       (messages this)).
Proof.
  destruct this as [d m r mgrs calls msgs].
  unfold dispatch, dispatchOutcome, dispatchCalls.
  destruct (nonEmpty toAdd || nonEmpty toRemove); simpl.
  - unfold await, _getExtensionHostManager. simpl.
    destruct (mgrs kind) as [manager|]; simpl.
    + unfold callDeltaExtensions, await, update, settle, withDeltaCall. simpl.
      by destruct (deltaExtensions manager toAdd toRemove).
    + unfold resolve. by rewrite app_nil_r.
  - unfold resolve. by rewrite app_nil_r.
Qed.

(** The whole method, in closed form. *)
Lemma _updateExtensionsOnExtHosts_run (toAdd : list IExtensionDescription)
    (toRemove : list ExtensionIdentifier) (this : ExtensionService Registry) :
  let added := partitionToAdd getExtensionKind toAdd (_runningLocation this) in
  let removed := partitionToRemove toRemove added.2 in
  let managers := _extensionHostManagers this in
  let localOutcome :=
    dispatchOutcome managers ExtensionHostKind.LocalWebWorker added.1.1 removed.1.1 in
  _updateExtensionsOnExtHosts getExtensionKind toAdd toRemove this
  = (match localOutcome with
     | Fulfilled _ =>
         dispatchOutcome managers ExtensionHostKind.Remote added.1.2 removed.1.2
     | Rejected => Rejected
     end,
     mkService (_remoteInitData this) removed.2 (_registry this) managers
       (deltaCalls this
          ++ dispatchCalls managers ExtensionHostKind.LocalWebWorker added.1.1 removed.1.1
          ++ match localOutcome with
             | Fulfilled _ =>
                 dispatchCalls managers ExtensionHostKind.Remote added.1.2 removed.1.2
             | Rejected => []
             end)
       (messages this)).
Proof.
  intros added removed managers localOutcome.
  unfold _updateExtensionsOnExtHosts.
  fold added. destruct added as [[localToAdd remoteToAdd] m1] eqn:Hadded.
  simpl in removed. fold removed.
  destruct removed as [[localToRemove remoteToRemove] m2] eqn:Hremoved.
  unfold await at 1. unfold update at 1.
  unfold await at 1. rewrite dispatch_run. simpl.
  fold managers. subst localOutcome. simpl.
  destruct (dispatchOutcome managers ExtensionHostKind.LocalWebWorker
              localToAdd localToRemove) as [[]|].
  - rewrite dispatch_run. simpl. by rewrite <- app_assoc.
  - by rewrite app_nil_r.
Qed.

End Dispatch.

(** C2, as stated, fails: with a delta for each host and both hosts
    present, a rejection by the local web worker ends the pass; the remote
    host's [deltaExtensions] is never called. *)
Lemma local_rejection_prevents_remote_call :
  (partitionToAdd extensionKind [E2_web_local; E1_ui_remote] ∅).1
  = ([E2_web_local], [E1_ui_remote])
  ∧ is_Some (localRejects ExtensionHostKind.Remote)
  ∧ (_updateExtensionsOnExtHosts extensionKind [E2_web_local; E1_ui_remote] []
       (freshService localRejects)).1 = Rejected
  ∧ deltaCalls (_updateExtensionsOnExtHosts extensionKind [E2_web_local; E1_ui_remote] []
                  (freshService localRejects)).2
    = [mkDeltaCall ExtensionHostKind.LocalWebWorker [E2_web_local] []].
Proof.
  split; [vm_compute; reflexivity|]. split; [by eexists|].
  split; vm_compute; reflexivity.
Qed.

(** C2, amended.  The two delta calls are issued one after the other, the
    local web worker's first.  The remote host's call is issued only once
    the local dispatch is fulfilled (its call accepted, or no call needed or
    no manager present), and the pass then settles as the remote dispatch
    does.  When the local call is rejected the pass is rejected and the
    remote call is not issued.  A rejection by the remote host comes after
    the local call has completed and does not undo it. *)
Theorem deltas_dispatched_in_sequence
    (getExtensionKind : IExtensionDescription → list ExtensionKind) {Registry : Type}
    (toAdd : list IExtensionDescription) (toRemove : list ExtensionIdentifier)
    (this : ExtensionService Registry) :
  let added := partitionToAdd getExtensionKind toAdd (_runningLocation this) in
  let removed := partitionToRemove toRemove added.2 in
  let managers := _extensionHostManagers this in
  let localCalls :=
    dispatchCalls managers ExtensionHostKind.LocalWebWorker added.1.1 removed.1.1 in
  let remoteCalls :=
    dispatchCalls managers ExtensionHostKind.Remote added.1.2 removed.1.2 in
  let run := _updateExtensionsOnExtHosts getExtensionKind toAdd toRemove this in
  match dispatchOutcome managers ExtensionHostKind.LocalWebWorker added.1.1 removed.1.1 with
  | Fulfilled _ =>
      deltaCalls run.2 = deltaCalls this ++ localCalls ++ remoteCalls
      ∧ run.1 = dispatchOutcome managers ExtensionHostKind.Remote added.1.2 removed.1.2
  | Rejected =>
      deltaCalls run.2 = deltaCalls this ++ localCalls
      ∧ run.1 = Rejected
  end.
Proof.
  intros added removed managers localCalls remoteCalls run.
  subst run. rewrite _updateExtensionsOnExtHosts_run.
  fold added. fold removed. fold managers. simpl.
  destruct (dispatchOutcome managers ExtensionHostKind.LocalWebWorker _ _); simpl.
  - done.
  - by rewrite app_nil_r.
Qed.



(** ** The remote init data *)

(** C8.  A pass of [_scanAndHandleExtensions] whose three scans are
    fulfilled is fulfilled.  It assigns [_remoteInitData] when a remote
    environment and a remote connection are both present, and leaves the
    field alone otherwise, so that a service that starts without init data
    holds some afterwards exactly when both are present.  The [extensions]
    of the data are the (enabled) remote-catalog extensions whose entry in
    the new table is [Remote], in catalog order, and [allExtensions] is the
    registry's full list after the pass. *)
Theorem remote_init_data_after_scan
    (getExtensionKind : IExtensionDescription → list ExtensionKind) {Registry : Type}
    (registryDeltaExtensions :
       Registry → list IExtensionDescription → list ExtensionIdentifier →
       Registry * list IExtensionDescription)
    (getAllExtensionDescriptions : Registry → list IExtensionDescription)
    (_checkEnabledAndProposedAPI : list IExtensionDescription → list IExtensionDescription)
    (getConnectionData : string → option IRemoteConnectionData)
    (scannedLocal scannedRemote : list IExtensionDescription)
    (remoteEnv : option IRemoteAgentEnvironment)
    (remoteAgentConnection : option IRemoteAgentConnection)
    (this : ExtensionService Registry) :
  let run :=
    _scanAndHandleExtensions getExtensionKind registryDeltaExtensions
      getAllExtensionDescriptions _checkEnabledAndProposedAPI getConnectionData
      (Fulfilled scannedLocal) (Fulfilled remoteEnv) (Fulfilled scannedRemote)
      remoteAgentConnection this in
  let localExtensions := _checkEnabledAndProposedAPI scannedLocal in
  let remoteExtensions := _checkEnabledAndProposedAPI scannedRemote in
  let table :=
    _determineRunningLocation getExtensionKind localExtensions remoteExtensions
      (bool_decide (is_Some remoteEnv) && bool_decide (is_Some remoteAgentConnection)) in
  let remotePlaced :=
    filterByRunningLocation remoteExtensions table ExtensionRunningLocation.Remote in
  let localPlaced :=
    filterByRunningLocation localExtensions table ExtensionRunningLocation.LocalWebWorker in
  run.1 = Fulfilled tt
  ∧ _runningLocation run.2 = table
  ∧ _registry run.2
    = (registryDeltaExtensions (_registry this) (remotePlaced ++ localPlaced) []).1
  ∧ _remoteInitData run.2
    = match remoteEnv, remoteAgentConnection with
      | Some env, Some connection =>
          Some {| connectionData := getConnectionData (remoteAuthority connection);
                  pid := env_pid env;
                  appRoot := env_appRoot env;
                  extensionHostLogsPath := env_extensionHostLogsPath env;
                  globalStorageHome := env_globalStorageHome env;
                  workspaceStorageHome := env_workspaceStorageHome env;
                  extensions := remotePlaced;
                  allExtensions := getAllExtensionDescriptions (_registry run.2) |}
      | _, _ => _remoteInitData this
      end
  ∧ (∀ e, e ∈ remotePlaced
          ↔ e ∈ remoteExtensions
            ∧ table !! toKey (identifier e) = Some ExtensionRunningLocation.Remote)
  ∧ (_remoteInitData this = None →
     (is_Some (_remoteInitData run.2)
      ↔ is_Some remoteEnv ∧ is_Some remoteAgentConnection)).
Proof.
  intros run localExtensions remoteExtensions table remotePlaced localPlaced.
  assert (run.1 = Fulfilled tt
          ∧ _runningLocation run.2 = table
          ∧ _registry run.2
            = (registryDeltaExtensions (_registry this) (remotePlaced ++ localPlaced) []).1
          ∧ _remoteInitData run.2
            = match remoteEnv, remoteAgentConnection with
              | Some env, Some connection =>
                  Some {| connectionData := getConnectionData (remoteAuthority connection);
                          pid := env_pid env;
                          appRoot := env_appRoot env;
                          extensionHostLogsPath := env_extensionHostLogsPath env;
                          globalStorageHome := env_globalStorageHome env;
                          workspaceStorageHome := env_workspaceStorageHome env;
                          extensions := remotePlaced;
                          allExtensions := getAllExtensionDescriptions (_registry run.2) |}
              | _, _ => _remoteInitData this
              end) as (Hres & Htable & Hreg & Hdata).
  { subst run. unfold _scanAndHandleExtensions, await, settle, update, resolve. simpl.
    fold localExtensions remoteExtensions. fold table. fold remotePlaced localPlaced.
    destruct (registryDeltaExtensions _ (remotePlaced ++ localPlaced) [])
      as [registry removedDueToLooping].
    destruct (nonEmpty removedDueToLooping), remoteEnv, remoteAgentConnection; done. }
  split; [exact Hres|]. split; [exact Htable|]. split; [exact Hreg|].
  split; [exact Hdata|]. split.
  { intros e. subst remotePlaced. unfold filterByRunningLocation.
    rewrite list_elem_of_filter. tauto. }
  intros Hnone. rewrite Hdata.
  destruct remoteEnv, remoteAgentConnection; rewrite ?Hnone, !is_Some_alt; tauto.
Qed.

Lemma remote_init_data_after_scan_witness :
  let this : ExtensionService (list IExtensionDescription) :=
    mkService None ∅ [] localRejects [] [] in
  let run :=
    _scanAndHandleExtensions extensionKind listRegistryDelta id id (fun _ => None)
      (Fulfilled [E1_ui_local; E2_web_local]) (Fulfilled (Some sampleEnvironment))
      (Fulfilled [E1_ui_remote]) (Some (mkConnection "ssh-remote+box")) this in
  _remoteInitData this = None
  ∧ is_Some (_remoteInitData run.2)
  ∧ extensions <$> _remoteInitData run.2 = Some [E1_ui_remote]
  ∧ allExtensions <$> _remoteInitData run.2 = Some [E1_ui_remote; E2_web_local].
Proof.
  intros this run.
  destruct (remote_init_data_after_scan extensionKind listRegistryDelta id id (fun _ => None)
              [E1_ui_local; E2_web_local] [E1_ui_remote] (Some sampleEnvironment)
              (Some (mkConnection "ssh-remote+box")) this)
    as (_ & _ & Hreg & Hdata & _ & Hiff).
  fold run in Hreg, Hdata, Hiff.
  split; [reflexivity|].
  split; [apply (Hiff eq_refl); split; by eexists|].
  rewrite Hdata, Hreg. split; vm_compute; reflexivity.
Defined.

(** * Further properties *)

(** ** More on the resolver *)

(** X1.  Scanning a concatenation of tag lists is scanning the first list
    and, only when it gives [None], the second: tags added at the end of a
    manifest's list never override a placement the earlier tags give. *)
Theorem pickRunningLocation_app
    (kinds1 kinds2 : list ExtensionKind) (isInstalledLocally isInstalledRemotely : bool) :
  pickRunningLocation (kinds1 ++ kinds2) isInstalledLocally isInstalledRemotely
  = match pickRunningLocation kinds1 isInstalledLocally isInstalledRemotely with
    | ExtensionRunningLocation.None =>
        pickRunningLocation kinds2 isInstalledLocally isInstalledRemotely
    | placed => placed
    end.
Proof.
  induction kinds1 as [|tag rest IH]; [reflexivity|].
  simpl.
  destruct (String.eqb tag "ui" && isInstalledRemotely); [reflexivity|].
  destruct (String.eqb tag "workspace" && isInstalledRemotely); [reflexivity|].
  destruct (String.eqb tag "web" && isInstalledLocally); [reflexivity|].
  exact IH.
Qed.

(** X2.  The resolver places an extension only where it is installed, and
    only on a tag that asks for it: [Remote] needs the extension installed
    remotely and a [ui] or [workspace] tag, [LocalWebWorker] needs it
    installed locally and a [web] tag, and [None] means that no tag
    matches. *)
Theorem pickRunningLocation_only_where_installed
    (extensionKinds : list ExtensionKind) (isInstalledLocally isInstalledRemotely : bool) :
  match pickRunningLocation extensionKinds isInstalledLocally isInstalledRemotely with
  | ExtensionRunningLocation.Remote =>
      isInstalledRemotely = true
      ∧ ("ui" ∈ extensionKinds ∨ "workspace" ∈ extensionKinds)
  | ExtensionRunningLocation.LocalWebWorker =>
      isInstalledLocally = true ∧ "web" ∈ extensionKinds
  | ExtensionRunningLocation.None =>
      Forall (fun t => ¬ tagMatches t isInstalledLocally isInstalledRemotely) extensionKinds
  end.
Proof.
  induction extensionKinds as [|tag rest IH]; [constructor|].
  destruct (tagMatches_dec tag isInstalledLocally isInstalledRemotely)
    as [[[Htag ->] | [-> ->]] | Hno].
  - rewrite pickRunningLocation_remote_tag by done. split; [done|].
    destruct Htag as [-> | ->]; [left | right]; left.
  - replace (pickRunningLocation ("web" :: rest) true isInstalledRemotely)
      with ExtensionRunningLocation.LocalWebWorker
      by (by destruct isInstalledRemotely).
    split; [done | left].
  - rewrite pickRunningLocation_skip by done.
    destruct (pickRunningLocation rest isInstalledLocally isInstalledRemotely).
    + by constructor.
    + destruct IH as [? ?]. split; [done | by right].
    + destruct IH as [? [? | ?]]; (split; [done|]); [left | right]; by right.
Qed.

(** X3.  Tags other than [ui], [workspace] and [web] have no effect:
    dropping them from the list does not change the placement. *)
Theorem pickRunningLocation_ignores_other_tags
    (extensionKinds : list ExtensionKind) (isInstalledLocally isInstalledRemotely : bool) :
  pickRunningLocation (filter (fun tag => knownKind tag = true) extensionKinds)
    isInstalledLocally isInstalledRemotely
  = pickRunningLocation extensionKinds isInstalledLocally isInstalledRemotely.
Proof.
  induction extensionKinds as [|tag rest IH]; [reflexivity|].
  rewrite filter_cons. destruct (decide (knownKind tag = true)) as [Hk | Hk].
  - simpl. by rewrite IH.
  - rewrite IH. symmetry. apply pickRunningLocation_skip.
    intros [[[-> | ->] _] | [-> _]]; by apply Hk.
Qed.

(** With the extension installed on one side only, the placement is a
    membership test on the tag list. *)
Lemma pickRunningLocation_local_only (extensionKinds : list ExtensionKind) :
  pickRunningLocation extensionKinds true false
  = if bool_decide ("web" ∈ extensionKinds)
    then ExtensionRunningLocation.LocalWebWorker
    else ExtensionRunningLocation.None.
Proof.
  induction extensionKinds as [|tag rest IH].
  - by rewrite bool_decide_eq_false_2 by apply not_elem_of_nil.
  - simpl. rewrite !andb_false_r, andb_true_r.
    destruct (String.eqb tag "web") eqn:Hweb.
    + apply eqb_true_iff in Hweb. subst tag.
      by rewrite bool_decide_eq_true_2 by left.
    + apply String.eqb_neq in Hweb. rewrite IH.
      destruct (decide ("web" ∈ rest)) as [Hin | Hout].
      * rewrite (bool_decide_eq_true_2 ("web" ∈ rest)) by done.
        by rewrite bool_decide_eq_true_2 by (by right).
      * rewrite (bool_decide_eq_false_2 ("web" ∈ rest)) by done.
        rewrite bool_decide_eq_false_2; [done|].
        intros [?|?]%elem_of_cons; [congruence | done].
Qed.

Lemma pickRunningLocation_remote_only (extensionKinds : list ExtensionKind) :
  pickRunningLocation extensionKinds false true
  = if bool_decide ("ui" ∈ extensionKinds ∨ "workspace" ∈ extensionKinds)
    then ExtensionRunningLocation.Remote
    else ExtensionRunningLocation.None.
Proof.
  induction extensionKinds as [|tag rest IH].
  - rewrite bool_decide_eq_false_2; [done|].
    intros [H | H]; by apply elem_of_nil in H.
  - simpl. rewrite !andb_true_r, andb_false_r.
    destruct (String.eqb tag "ui") eqn:Hui.
    { apply eqb_true_iff in Hui. subst tag.
      by rewrite bool_decide_eq_true_2 by (left; left). }
    destruct (String.eqb tag "workspace") eqn:Hws.
    { apply eqb_true_iff in Hws. subst tag.
      by rewrite bool_decide_eq_true_2 by (right; left). }
    apply String.eqb_neq in Hui, Hws. rewrite IH.
    destruct (decide ("ui" ∈ rest ∨ "workspace" ∈ rest)) as [Hin | Hout].
    + rewrite (bool_decide_eq_true_2 ("ui" ∈ rest ∨ "workspace" ∈ rest)) by done.
      rewrite bool_decide_eq_true_2; [done|].
      destruct Hin; [left | right]; by right.
    + rewrite (bool_decide_eq_false_2 ("ui" ∈ rest ∨ "workspace" ∈ rest)) by done.
      rewrite bool_decide_eq_false_2; [done|].
      intros [[?|?]%elem_of_cons | [?|?]%elem_of_cons]; try congruence;
        apply Hout; auto.
Qed.

(** X4.  The decision that [_updateExtensionsOnExtHosts] takes for an added
    record depends on its location scheme and on its kinds only: a record
    at a [vscode-remote] location goes to the remote host when its kinds
    contain [ui] or [workspace] and nowhere otherwise; any other record
    goes to the local web worker when its kinds contain [web] and nowhere
    otherwise. *)
Theorem addedRunningLocation_by_location
    (getExtensionKind : IExtensionDescription → list ExtensionKind)
    (extension : IExtensionDescription) :
  addedRunningLocation getExtensionKind extension
  = if isRemoteLocation extension then
      if bool_decide ("ui" ∈ getExtensionKind extension
                      ∨ "workspace" ∈ getExtensionKind extension)
      then ExtensionRunningLocation.Remote
      else ExtensionRunningLocation.None
    else
      if bool_decide ("web" ∈ getExtensionKind extension)
      then ExtensionRunningLocation.LocalWebWorker
      else ExtensionRunningLocation.None.
Proof.
  unfold addedRunningLocation.
  destruct (isRemoteLocation extension); simpl.
  - apply pickRunningLocation_remote_only.
  - apply pickRunningLocation_local_only.
Qed.

(** X5.  [_canAddExtension] answers [false], whatever the base class
    answers, for a remote extension whose kinds contain neither [ui] nor
    [workspace] and for a non-remote extension whose kinds do not contain
    [web]; for every other extension its answer is the base class's. *)
Theorem _canAddExtension_by_location {Manifest : Type}
    (getManifestKind : Manifest → list ExtensionKind)
    (superCanAddExtension : IExtension Manifest → bool)
    (extension : IExtension Manifest) :
  _canAddExtension Manifest getManifestKind superCanAddExtension extension
  = (if String.eqb (scheme (location extension)) Schemas.vscodeRemote
     then bool_decide ("ui" ∈ getManifestKind (manifest extension)
                       ∨ "workspace" ∈ getManifestKind (manifest extension))
     else bool_decide ("web" ∈ getManifestKind (manifest extension)))
    && superCanAddExtension extension.
Proof.
  unfold _canAddExtension.
  destruct (String.eqb (scheme (location extension)) Schemas.vscodeRemote); simpl.
  - rewrite pickRunningLocation_remote_only.
    by destruct (bool_decide _).
  - rewrite pickRunningLocation_local_only.
    by destruct (bool_decide _).
Qed.

(** ** More on the placement table *)

Lemma pickRunningLocation_installed (extensionKinds : list ExtensionKind) (l r : bool) :
  match pickRunningLocation extensionKinds l r with
  | ExtensionRunningLocation.Remote => r = true
  | ExtensionRunningLocation.LocalWebWorker => l = true
  | ExtensionRunningLocation.None => True
  end.
Proof.
  induction extensionKinds as [|tag rest IH]; [done|].
  simpl.
  destruct (String.eqb tag "ui"), (String.eqb tag "workspace"),
    (String.eqb tag "web"), l, r; simpl; done.
Qed.

(** X6.  The table holds one entry for each identity of either catalog and
    none for any other key: an identity in neither catalog is never
    entered, and no catalog record is left without a decision. *)
Theorem determineRunningLocation_dom
    (getExtensionKind : IExtensionDescription → list ExtensionKind)
    (localExtensions remoteExtensions : list IExtensionDescription)
    (allExtensionKinds : gmap string (list ExtensionKind)) (hasRemote : bool) :
  dom (determineRunningLocation localExtensions remoteExtensions allExtensionKinds hasRemote)
  = keySet localExtensions ∪ keySet remoteExtensions
  ∧ dom (_determineRunningLocation getExtensionKind localExtensions remoteExtensions hasRemote)
    = keySet localExtensions ∪ keySet remoteExtensions.
Proof.
  split; apply set_eq; intros k; rewrite elem_of_dom;
    [rewrite lookup_determineRunningLocation | rewrite lookup__determineRunningLocation];
    case_decide; split; try done; try (by eexists); by intros [? ?].
Qed.

(** X7.  The table places an identity only on a host where it is installed:
    an entry [Remote] is an identity of the remote catalog, an entry
    [LocalWebWorker] one of the local catalog. *)
Theorem determineRunningLocation_only_where_installed
    (localExtensions remoteExtensions : list IExtensionDescription)
    (allExtensionKinds : gmap string (list ExtensionKind)) (hasRemote : bool) (k : string) :
  match determineRunningLocation localExtensions remoteExtensions allExtensionKinds hasRemote
          !! k with
  | Some ExtensionRunningLocation.Remote => k ∈ keySet remoteExtensions
  | Some ExtensionRunningLocation.LocalWebWorker => k ∈ keySet localExtensions
  | _ => True
  end.
Proof.
  rewrite lookup_determineRunningLocation. case_decide; [|done].
  pose proof (pickRunningLocation_installed (default [] (allExtensionKinds !! k))
                (bool_decide (k ∈ keySet localExtensions))
                (bool_decide (k ∈ keySet remoteExtensions))) as Hp.
  destruct (pickRunningLocation _ _ _); [done | |]; by apply bool_decide_eq_true in Hp.
Qed.

(** X8.  An identity of a catalog for which the kind map has no entry is
    entered with the decision [None]: the missing entry is read as the
    empty tag list, it is no error. *)
Theorem determineRunningLocation_missing_kinds
    (localExtensions remoteExtensions : list IExtensionDescription)
    (allExtensionKinds : gmap string (list ExtensionKind)) (hasRemote : bool) (k : string) :
  k ∈ keySet localExtensions ∪ keySet remoteExtensions →
  allExtensionKinds !! k = None →
  determineRunningLocation localExtensions remoteExtensions allExtensionKinds hasRemote !! k
  = Some ExtensionRunningLocation.None.
Proof.
  intros Hk Hnone. rewrite lookup_determineRunningLocation, Hnone.
  by rewrite decide_True.
Qed.

Lemma determineRunningLocation_missing_kinds_witness :
  "pub.e2" ∈ keySet [E1_ui_local; E2_web_local] ∪ keySet [E1_ui_remote]
  ∧ ({[ "pub.e1" := ["ui"] ]} : gmap string (list ExtensionKind)) !! "pub.e2" = None
  ∧ determineRunningLocation [E1_ui_local; E2_web_local] [E1_ui_remote]
      {[ "pub.e1" := ["ui"] ]} true !! "pub.e2"
    = Some ExtensionRunningLocation.None.
Proof.
  assert ("pub.e2" ∈ keySet [E1_ui_local; E2_web_local] ∪ keySet [E1_ui_remote]) as Hk.
  { apply elem_of_union_l, elem_of_keySet. exists E2_web_local.
    split; [right; left | reflexivity]. }
  split; [exact Hk|]. split; [reflexivity|].
  exact (determineRunningLocation_missing_kinds [E1_ui_local; E2_web_local] [E1_ui_remote]
           {[ "pub.e1" := ["ui"] ]} true "pub.e2" Hk eq_refl).
Defined.

(** The table entries [LocalWebWorker] and [Remote] of
    [_determineRunningLocation], read back as catalog membership. *)
Lemma _determineRunningLocation_installed
    (getExtensionKind : IExtensionDescription → list ExtensionKind)
    (localExtensions remoteExtensions : list IExtensionDescription)
    (hasRemote : bool) (k : string) :
  match _determineRunningLocation getExtensionKind localExtensions remoteExtensions hasRemote
          !! k with
  | Some ExtensionRunningLocation.Remote => k ∈ keySet remoteExtensions
  | Some ExtensionRunningLocation.LocalWebWorker => k ∈ keySet localExtensions
  | _ => True
  end.
Proof.
  rewrite lookup__determineRunningLocation. case_decide; [|done].
  match goal with
  | |- context [pickRunningLocation ?ks ?l ?r] =>
      pose proof (pickRunningLocation_installed ks l r) as Hp;
      destruct (pickRunningLocation ks l r)
  end; [done | |]; by apply bool_decide_eq_true in Hp.
Qed.

Lemma elem_of_keys_filterByRunningLocation
    (extensions : list IExtensionDescription)
    (m : gmap string ExtensionRunningLocation.t)
    (desired : ExtensionRunningLocation.t) (k : string) :
  k ∈ ((fun x => toKey (identifier x)) <$> filterByRunningLocation extensions m desired)
  ↔ k ∈ keySet extensions ∧ m !! k = Some desired.
Proof.
  unfold filterByRunningLocation. rewrite list_elem_of_fmap, elem_of_keySet. split.
  - intros (e & -> & [Hm Hin]%list_elem_of_filter). split; [by exists e | done].
  - intros [(e & Hin & <-) Hm]. exists e. split; [done|].
    by apply list_elem_of_filter.
Qed.

(** X9.  What a full scan hands to the registry (lines 203-208): the
    identities taken from the local catalog are exactly those the table
    places on the local web worker, the identities taken from the remote
    catalog are exactly those it places on the remote host, and no identity
    is taken from both. *)
Theorem scan_registers_each_placed_identity_once
    (getExtensionKind : IExtensionDescription → list ExtensionKind)
    (localExtensions remoteExtensions : list IExtensionDescription) (hasRemote : bool) :
  let table :=
    _determineRunningLocation getExtensionKind localExtensions remoteExtensions hasRemote in
  let localPlaced :=
    filterByRunningLocation localExtensions table ExtensionRunningLocation.LocalWebWorker in
  let remotePlaced :=
    filterByRunningLocation remoteExtensions table ExtensionRunningLocation.Remote in
  ∀ k : string,
    (k ∈ ((fun x => toKey (identifier x)) <$> localPlaced)
       ↔ table !! k = Some ExtensionRunningLocation.LocalWebWorker)
    ∧ (k ∈ ((fun x => toKey (identifier x)) <$> remotePlaced)
       ↔ table !! k = Some ExtensionRunningLocation.Remote)
    ∧ ¬ (k ∈ ((fun x => toKey (identifier x)) <$> localPlaced)
         ∧ k ∈ ((fun x => toKey (identifier x)) <$> remotePlaced)).
Proof.
  intros table localPlaced remotePlaced k.
  subst localPlaced remotePlaced. rewrite !elem_of_keys_filterByRunningLocation.
  pose proof (_determineRunningLocation_installed getExtensionKind localExtensions
                remoteExtensions hasRemote k) as Hinst.
  fold table in Hinst.
  split; [|split].
  - split; [tauto|]. intros H. rewrite H in Hinst. done.
  - split; [tauto|]. intros H. rewrite H in Hinst. done.
  - intros [[_ H1] [_ H2]]. congruence.
Qed.

Lemma NoDup_keys_filterByRunningLocation
    (extensions : list IExtensionDescription)
    (m : gmap string ExtensionRunningLocation.t) (desired : ExtensionRunningLocation.t) :
  NoDup ((fun x => toKey (identifier x)) <$> extensions) →
  NoDup ((fun x => toKey (identifier x)) <$> filterByRunningLocation extensions m desired).
Proof.
  intros Hnd. apply (sublist_NoDup _ _ Hnd).
  apply fmap_sublist. unfold filterByRunningLocation. apply sublist_filter.
Qed.

(** X10.  When each catalog names every identity once, the list a full scan
    hands to the registry, the remote records followed by the local ones,
    names every identity once, also for identities that are in both
    catalogs. *)
Theorem scan_registry_input_NoDup
    (getExtensionKind : IExtensionDescription → list ExtensionKind)
    (localExtensions remoteExtensions : list IExtensionDescription) (hasRemote : bool) :
  NoDup ((fun x => toKey (identifier x)) <$> localExtensions) →
  NoDup ((fun x => toKey (identifier x)) <$> remoteExtensions) →
  let table :=
    _determineRunningLocation getExtensionKind localExtensions remoteExtensions hasRemote in
  NoDup ((fun x => toKey (identifier x)) <$>
           (filterByRunningLocation remoteExtensions table ExtensionRunningLocation.Remote
            ++ filterByRunningLocation localExtensions table
                 ExtensionRunningLocation.LocalWebWorker)).
Proof.
  intros Hl Hr table. rewrite fmap_app. apply NoDup_app.
  split; [by apply NoDup_keys_filterByRunningLocation|].
  split; [|by apply NoDup_keys_filterByRunningLocation].
  intros k [_ H1]%elem_of_keys_filterByRunningLocation
           [_ H2]%elem_of_keys_filterByRunningLocation.
  congruence.
Qed.

Lemma scan_registry_input_NoDup_witness :
  NoDup ((fun x => toKey (identifier x)) <$> [E1_web_local; E2_web_local])
  ∧ NoDup ((fun x => toKey (identifier x)) <$> [E1_ui_remote])
  ∧ NoDup ((fun x => toKey (identifier x)) <$>
             (filterByRunningLocation [E1_ui_remote]
                (_determineRunningLocation extensionKind [E1_web_local; E2_web_local]
                   [E1_ui_remote] true)
                ExtensionRunningLocation.Remote
              ++ filterByRunningLocation [E1_web_local; E2_web_local]
                   (_determineRunningLocation extensionKind [E1_web_local; E2_web_local]
                      [E1_ui_remote] true)
                   ExtensionRunningLocation.LocalWebWorker)).
Proof.
  assert (NoDup ((fun x => toKey (identifier x)) <$> [E1_web_local; E2_web_local])) as Hl.
  { apply (bool_decide_unpack _). vm_compute. exact I. }
  assert (NoDup ((fun x => toKey (identifier x)) <$> [E1_ui_remote])) as Hr.
  { apply (bool_decide_unpack _). vm_compute. exact I. }
  split; [exact Hl|]. split; [exact Hr|].
  exact (scan_registry_input_NoDup extensionKind [E1_web_local; E2_web_local]
           [E1_ui_remote] true Hl Hr).
Defined.

(** ** Full scan and incremental update agree *)

(** X11.  For a local record (location not [vscode-remote]) whose identity
    is in the local catalog once and not in the remote catalog, a full scan
    enters the very decision that an incremental add of the record takes. *)
Theorem scan_agrees_with_add_local
    (getExtensionKind : IExtensionDescription → list ExtensionKind)
    (localExtensions remoteExtensions : list IExtensionDescription) (hasRemote : bool)
    (extension : IExtensionDescription) :
  NoDup ((fun x => toKey (identifier x)) <$> localExtensions) →
  extension ∈ localExtensions →
  toKey (identifier extension) ∉ keySet remoteExtensions →
  isRemoteLocation extension = false →
  _determineRunningLocation getExtensionKind localExtensions remoteExtensions hasRemote
    !! toKey (identifier extension)
  = Some (addedRunningLocation getExtensionKind extension).
Proof.
  intros Hnd Hin Hnot Hloc.
  rewrite lookup__determineRunningLocation.
  rewrite decide_True by (apply elem_of_union_l, elem_of_keySet; by exists extension).
  rewrite (proj2 (lastWithKey_None _ _) Hnot).
  rewrite (lastWithKey_NoDup _ _ Hnd Hin). simpl.
  rewrite bool_decide_eq_true_2 by (apply elem_of_keySet; by exists extension).
  rewrite bool_decide_eq_false_2 by done.
  unfold addedRunningLocation. by rewrite Hloc.
Qed.

Lemma scan_agrees_with_add_local_witness :
  NoDup ((fun x => toKey (identifier x)) <$> [E1_ui_local; E2_web_local])
  ∧ E2_web_local ∈ [E1_ui_local; E2_web_local]
  ∧ (toKey (identifier E2_web_local) ∉ keySet [E1_ui_remote])
  ∧ isRemoteLocation E2_web_local = false
  ∧ _determineRunningLocation extensionKind [E1_ui_local; E2_web_local] [E1_ui_remote] true
      !! toKey (identifier E2_web_local)
    = Some (addedRunningLocation extensionKind E2_web_local).
Proof.
  assert (NoDup ((fun x => toKey (identifier x)) <$> [E1_ui_local; E2_web_local])) as Hnd.
  { apply (bool_decide_unpack _). vm_compute. exact I. }
  assert (E2_web_local ∈ [E1_ui_local; E2_web_local]) as Hin by (right; left).
  assert (toKey (identifier E2_web_local) ∉ keySet [E1_ui_remote]) as Hnot.
  { apply (bool_decide_unpack _). vm_compute. exact I. }
  split; [exact Hnd|]. split; [exact Hin|]. split; [exact Hnot|]. split; [reflexivity|].
  exact (scan_agrees_with_add_local extensionKind [E1_ui_local; E2_web_local]
           [E1_ui_remote] true E2_web_local Hnd Hin Hnot eq_refl).
Defined.

(** X12.  For a remote record (location [vscode-remote]) whose identity is
    in the remote catalog once and not in the local catalog, a full scan
    enters the very decision that an incremental add of the record takes. *)
Theorem scan_agrees_with_add_remote
    (getExtensionKind : IExtensionDescription → list ExtensionKind)
    (localExtensions remoteExtensions : list IExtensionDescription) (hasRemote : bool)
    (extension : IExtensionDescription) :
  NoDup ((fun x => toKey (identifier x)) <$> remoteExtensions) →
  extension ∈ remoteExtensions →
  toKey (identifier extension) ∉ keySet localExtensions →
  isRemoteLocation extension = true →
  _determineRunningLocation getExtensionKind localExtensions remoteExtensions hasRemote
    !! toKey (identifier extension)
  = Some (addedRunningLocation getExtensionKind extension).
Proof.
  intros Hnd Hin Hnot Hloc.
  rewrite lookup__determineRunningLocation.
  rewrite decide_True by (apply elem_of_union_r, elem_of_keySet; by exists extension).
  rewrite (lastWithKey_NoDup _ _ Hnd Hin).
  rewrite bool_decide_eq_false_2 by done.
  rewrite bool_decide_eq_true_2 by (apply elem_of_keySet; by exists extension).
  unfold addedRunningLocation. by rewrite Hloc.
Qed.

Lemma scan_agrees_with_add_remote_witness :
  NoDup ((fun x => toKey (identifier x)) <$> [E1_ui_remote])
  ∧ E1_ui_remote ∈ [E1_ui_remote]
  ∧ (toKey (identifier E1_ui_remote) ∉ keySet [E2_web_local])
  ∧ isRemoteLocation E1_ui_remote = true
  ∧ _determineRunningLocation extensionKind [E2_web_local] [E1_ui_remote] true
      !! toKey (identifier E1_ui_remote)
    = Some (addedRunningLocation extensionKind E1_ui_remote).
Proof.
  assert (NoDup ((fun x => toKey (identifier x)) <$> [E1_ui_remote])) as Hnd.
  { apply (bool_decide_unpack _). vm_compute. exact I. }
  assert (E1_ui_remote ∈ [E1_ui_remote]) as Hin by left.
  assert (toKey (identifier E1_ui_remote) ∉ keySet [E2_web_local]) as Hnot.
  { apply (bool_decide_unpack _). vm_compute. exact I. }
  split; [exact Hnd|]. split; [exact Hin|]. split; [exact Hnot|]. split; [reflexivity|].
  exact (scan_agrees_with_add_remote extensionKind [E2_web_local] [E1_ui_remote] true
           E1_ui_remote Hnd Hin Hnot eq_refl).
Defined.

(** X13.  [_canAddExtension] and the add loop agree: when the scanned
    description carries the kinds and the location of an extension that
    [_canAddExtension] accepts, the add loop does not drop it; the
    description is pushed to exactly one of the two add lists. *)
Theorem accepted_extension_is_routed {Manifest : Type}
    (getManifestKind : Manifest → list ExtensionKind)
    (superCanAddExtension : IExtension Manifest → bool)
    (getExtensionKind : IExtensionDescription → list ExtensionKind)
    (extension : IExtension Manifest) (description : IExtensionDescription)
    (toAdd : list IExtensionDescription) (m : gmap string ExtensionRunningLocation.t) :
  getExtensionKind description = getManifestKind (manifest extension) →
  extensionLocation description = location extension →
  _canAddExtension Manifest getManifestKind superCanAddExtension extension = true →
  description ∈ toAdd →
  (description ∈ (partitionToAdd getExtensionKind toAdd m).1.1
   ∧ description ∉ (partitionToAdd getExtensionKind toAdd m).1.2)
  ∨ (description ∈ (partitionToAdd getExtensionKind toAdd m).1.2
     ∧ description ∉ (partitionToAdd getExtensionKind toAdd m).1.1).
Proof.
  intros Hkinds Hloc Hcan Hin.
  rewrite partitionToAdd_eq. simpl. rewrite !list_elem_of_filter.
  assert (addedRunningLocation getExtensionKind description
          ≠ ExtensionRunningLocation.None) as Hplaced.
  { unfold addedRunningLocation, isRemoteLocation. rewrite Hkinds, Hloc.
    unfold _canAddExtension in Hcan. by case_decide. }
  destruct (addedRunningLocation getExtensionKind description); [done | left | right];
    (split; [done|]); intros [? _]; done.
Qed.

Lemma accepted_extension_is_routed_witness :
  extensionKind E2_web_local = id (manifest (mkIExtension ["web"] (mkURI "http" "/pub.e2")))
  ∧ extensionLocation E2_web_local
    = location (mkIExtension ["web"] (mkURI "http" "/pub.e2"))
  ∧ _canAddExtension (list ExtensionKind) id (fun _ => true)
      (mkIExtension ["web"] (mkURI "http" "/pub.e2")) = true
  ∧ E2_web_local ∈ [E1_ui_remote; E2_web_local]
  ∧ ((E2_web_local ∈ (partitionToAdd extensionKind [E1_ui_remote; E2_web_local] ∅).1.1
      ∧ E2_web_local ∉ (partitionToAdd extensionKind [E1_ui_remote; E2_web_local] ∅).1.2)
     ∨ (E2_web_local ∈ (partitionToAdd extensionKind [E1_ui_remote; E2_web_local] ∅).1.2
        ∧ E2_web_local ∉ (partitionToAdd extensionKind [E1_ui_remote; E2_web_local] ∅).1.1)).
Proof.
  assert (E2_web_local ∈ [E1_ui_remote; E2_web_local]) as Hin by (right; left).
  split; [reflexivity|]. split; [reflexivity|]. split; [reflexivity|].
  split; [exact Hin|].
  exact (accepted_extension_is_routed id (fun _ => true) extensionKind
           (mkIExtension ["web"] (mkURI "http" "/pub.e2")) E2_web_local
           [E1_ui_remote; E2_web_local] ∅ eq_refl eq_refl eq_refl Hin).
Defined.

(** ** More on the two partition loops *)

Lemma filter_ext_in {A : Type} (P Q : A → Prop)
    `{!∀ x, Decision (P x), !∀ x, Decision (Q x)} (l : list A) :
  (∀ x, x ∈ l → (P x ↔ Q x)) → filter P l = filter Q l.
Proof.
  induction l as [|a l IH]; intros Hext; [done|].
  rewrite !filter_cons.
  rewrite IH by (intros x Hx; apply Hext; by right).
  destruct (decide (P a)) as [Hp | Hp], (decide (Q a)) as [Hq | Hq]; try done;
    exfalso; pose proof (Hext a ltac:(left)); tauto.
Qed.

Lemma filter_fmap_identifier (P : ExtensionIdentifier → Prop)
    `{!∀ x, Decision (P x)} (l : list IExtensionDescription) :
  filter P (identifier <$> l) = identifier <$> filter (fun e => P (identifier e)) l.
Proof.
  induction l as [|a l IH]; [done|].
  rewrite fmap_cons, !filter_cons, IH. by destruct (decide (P (identifier a))).
Qed.


(** The remove loop on identifiers with pairwise distinct keys, in closed
    form: each list receives, in order, the identifiers whose entry in the
    starting map is the list's location. *)
Lemma partitionToRemove_NoDup_from
    (toRemove localToRemove remoteToRemove : list ExtensionIdentifier)
    (m : gmap string ExtensionRunningLocation.t) :
  NoDup (toKey <$> toRemove) →
  foldl removeStep (localToRemove, remoteToRemove, m) toRemove
  = (localToRemove
       ++ filter (fun id => m !! toKey id = Some ExtensionRunningLocation.LocalWebWorker)
            toRemove,
     remoteToRemove
       ++ filter (fun id => m !! toKey id = Some ExtensionRunningLocation.Remote) toRemove,
     foldl (fun m id => delete (toKey id) m) m toRemove).
Proof.
  revert localToRemove remoteToRemove m.
  induction toRemove as [|a l IH]; intros lr rr m Hnd.
  - simpl. by rewrite !app_nil_r.
  - rewrite fmap_cons in Hnd. apply NoDup_cons in Hnd as [Hfresh Hnd].
    change (foldl removeStep (lr, rr, m) (a :: l))
      with (foldl removeStep (removeStep (lr, rr, m) a) l).
    change (foldl (fun m id => delete (toKey id) m) m (a :: l))
      with (foldl (fun m id => delete (toKey id) m) (delete (toKey a) m) l).
    assert (∀ d, filter (fun id => delete (toKey a) m !! toKey id = Some d) l
                 = filter (fun id => m !! toKey id = Some d) l) as Hfilter.
    { intros d. apply filter_ext_in. intros x Hx.
      rewrite lookup_delete_ne; [done|].
      intros Heq. apply Hfresh. rewrite Heq. by apply list_elem_of_fmap_2. }
    rewrite !filter_cons. unfold removeStep.
    destruct (m !! toKey a) as [[]|] eqn:Hm; rewrite (IH _ _ _ Hnd), !Hfilter;
      simpl; rewrite <- ?app_assoc; repeat case_decide; simplify_eq; done.
Qed.

(** The keys of the two remove lists stay pairwise distinct, and their
    entries are gone from the map. *)
Lemma partitionToRemove_keys_NoDup
    (toRemove localToRemove remoteToRemove : list ExtensionIdentifier)
    (m : gmap string ExtensionRunningLocation.t) :
  NoDup (toKey <$> (localToRemove ++ remoteToRemove)) →
  (∀ k, k ∈ toKey <$> (localToRemove ++ remoteToRemove) → m !! k = None) →
  NoDup (toKey <$>
           ((foldl removeStep (localToRemove, remoteToRemove, m) toRemove).1.1
            ++ (foldl removeStep (localToRemove, remoteToRemove, m) toRemove).1.2)).
Proof.
  revert localToRemove remoteToRemove m.
  induction toRemove as [|a l IH]; intros lr rr m Hnd Hgone; [done|].
  change (foldl removeStep (lr, rr, m) (a :: l))
    with (foldl removeStep (removeStep (lr, rr, m) a) l).
  assert (∀ k, k ∈ toKey <$> (lr ++ rr) → delete (toKey a) m !! k = None) as Hgone'.
  { intros k Hk. rewrite lookup_delete. case_decide; [done | by apply Hgone]. }
  assert (is_Some (m !! toKey a) → toKey a ∉ toKey <$> (lr ++ rr)) as Hfresh.
  { intros [d Hd] Hin. apply Hgone in Hin. congruence. }
  unfold removeStep at 2 4.
  destruct (m !! toKey a) as [[]|] eqn:Hm.
  - by apply IH.
  - apply IH.
    + rewrite <- app_assoc. rewrite (Permutation_app_comm [a] rr), app_assoc.
      rewrite fmap_app. simpl. rewrite Permutation_app_comm. simpl.
      apply NoDup_cons. split; [by apply Hfresh | done].
    + intros k Hk. rewrite <- app_assoc, (Permutation_app_comm [a] rr), app_assoc in Hk.
      rewrite fmap_app, elem_of_app in Hk. simpl in Hk.
      rewrite list_elem_of_singleton in Hk. destruct Hk as [Hk | ->].
      * by apply Hgone'.
      * apply lookup_delete_eq.
  - apply IH.
    + rewrite app_assoc. rewrite fmap_app. simpl. rewrite Permutation_app_comm. simpl.
      apply NoDup_cons. split; [by apply Hfresh | done].
    + intros k Hk. rewrite app_assoc, fmap_app, elem_of_app in Hk. simpl in Hk.
      rewrite list_elem_of_singleton in Hk. destruct Hk as [Hk | ->].
      * by apply Hgone'.
      * apply lookup_delete_eq.
  - by apply IH.
Qed.

(** X14.  The add loop keeps the order of [toAdd]: the local add list is
    the subsequence of the records decided [LocalWebWorker], the remote add
    list the subsequence of those decided [Remote], also when records
    repeat an identity.  In the map each key of an added record ends with
    the decision of the last added record with that key, and every other
    entry is untouched. *)
Theorem add_loop_keeps_order_and_last_decision
    (getExtensionKind : IExtensionDescription → list ExtensionKind)
    (toAdd : list IExtensionDescription) (m : gmap string ExtensionRunningLocation.t) :
  (partitionToAdd getExtensionKind toAdd m).1.1
  = filter (fun e => addedRunningLocation getExtensionKind e
                     = ExtensionRunningLocation.LocalWebWorker) toAdd
  ∧ (partitionToAdd getExtensionKind toAdd m).1.2
    = filter (fun e => addedRunningLocation getExtensionKind e
                       = ExtensionRunningLocation.Remote) toAdd
  ∧ ∀ k, (partitionToAdd getExtensionKind toAdd m).2 !! k
         = match lastWithKey k toAdd with
           | Some e => Some (addedRunningLocation getExtensionKind e)
           | None => m !! k
           end.
Proof.
  split; [by rewrite partitionToAdd_eq|]. split; [by rewrite partitionToAdd_eq|].
  intros k. apply lookup_partitionToAdd.
Qed.

(** X15.  The remove loop names each identity at most once over its two
    lists, also when [toRemove] repeats an identifier or lists it under
    different letter cases: the first occurrence deletes the entry and the
    later ones are routed nowhere. *)
Theorem remove_loop_names_each_identity_once
    (toRemove : list ExtensionIdentifier) (m : gmap string ExtensionRunningLocation.t) :
  NoDup (toKey <$> ((partitionToRemove toRemove m).1.1 ++ (partitionToRemove toRemove m).1.2)).
Proof.
  unfold partitionToRemove. apply partitionToRemove_keys_NoDup.
  - simpl. constructor.
  - intros k Hk. by apply elem_of_nil in Hk.
Qed.

(** X16.  Adding records and then removing their identifiers is a round
    trip: when the added records have pairwise distinct identities that the
    map does not hold yet, the remove loop run on their identifiers sends
    each identifier to the host its record was added to, in the same order,
    and leaves the map as it was before the add. *)
Theorem add_then_remove_round_trip
    (getExtensionKind : IExtensionDescription → list ExtensionKind)
    (toAdd : list IExtensionDescription) (m : gmap string ExtensionRunningLocation.t) :
  NoDup ((fun x => toKey (identifier x)) <$> toAdd) →
  (∀ e, e ∈ toAdd → m !! toKey (identifier e) = None) →
  partitionToRemove (identifier <$> toAdd) (partitionToAdd getExtensionKind toAdd m).2
  = (identifier <$> (partitionToAdd getExtensionKind toAdd m).1.1,
     identifier <$> (partitionToAdd getExtensionKind toAdd m).1.2,
     m).
Proof.
  intros Hnd Hfresh.
  assert (toKey <$> (identifier <$> toAdd) = (fun x => toKey (identifier x)) <$> toAdd)
    as Hkeys by (by rewrite <- list_fmap_compose).
  unfold partitionToRemove.
  rewrite partitionToRemove_NoDup_from by (by rewrite Hkeys).
  rewrite partitionToAdd_eq. simpl.
  assert (∀ e, e ∈ toAdd →
            foldl (fun m e => <[ toKey (identifier e)
                                 := addedRunningLocation getExtensionKind e ]> m) m toAdd
              !! toKey (identifier e)
            = Some (addedRunningLocation getExtensionKind e)) as Hlk.
  { intros e He. by rewrite lookup_forEach_set, (lastWithKey_NoDup _ _ Hnd He). }
  f_equal; [f_equal|].
  - rewrite filter_fmap_identifier. f_equal. apply filter_ext_in.
    intros e He. rewrite (Hlk e He). split; congruence.
  - rewrite filter_fmap_identifier. f_equal. apply filter_ext_in.
    intros e He. rewrite (Hlk e He). split; congruence.
  - apply map_eq. intros k. rewrite lookup_forEach_delete, Hkeys.
    case_decide as Hk.
    + apply list_elem_of_fmap in Hk as (e & -> & He). symmetry. by apply Hfresh.
    + rewrite lookup_forEach_set.
      destruct (lastWithKey k toAdd) as [e|] eqn:He; [|done].
      exfalso. apply Hk. apply lastWithKey_Some in He as [He <-].
      by apply (list_elem_of_fmap_2 (fun x => toKey (identifier x))).
Qed.

Lemma add_then_remove_round_trip_witness :
  NoDup ((fun x => toKey (identifier x)) <$> [E1_ui_remote; E2_web_local])
  ∧ (∀ e, e ∈ [E1_ui_remote; E2_web_local] →
          ({[ "pub.e3" := ExtensionRunningLocation.Remote ]}
             : gmap string ExtensionRunningLocation.t) !! toKey (identifier e) = None)
  ∧ partitionToRemove (identifier <$> [E1_ui_remote; E2_web_local])
      (partitionToAdd extensionKind [E1_ui_remote; E2_web_local]
         {[ "pub.e3" := ExtensionRunningLocation.Remote ]}).2
    = (identifier <$> (partitionToAdd extensionKind [E1_ui_remote; E2_web_local]
                         {[ "pub.e3" := ExtensionRunningLocation.Remote ]}).1.1,
       identifier <$> (partitionToAdd extensionKind [E1_ui_remote; E2_web_local]
                         {[ "pub.e3" := ExtensionRunningLocation.Remote ]}).1.2,
       {[ "pub.e3" := ExtensionRunningLocation.Remote ]}).
Proof.
  assert (NoDup ((fun x => toKey (identifier x)) <$> [E1_ui_remote; E2_web_local])) as Hnd.
  { apply (bool_decide_unpack _). vm_compute. exact I. }
  assert (∀ e, e ∈ [E1_ui_remote; E2_web_local] →
            ({[ "pub.e3" := ExtensionRunningLocation.Remote ]}
               : gmap string ExtensionRunningLocation.t) !! toKey (identifier e) = None)
    as Hfresh.
  { intros e He. apply elem_of_cons in He as [-> | He]; [reflexivity|].
    apply list_elem_of_singleton in He. subst e. reflexivity. }
  split; [exact Hnd|]. split; [exact Hfresh|].
  exact (add_then_remove_round_trip extensionKind [E1_ui_remote; E2_web_local]
           {[ "pub.e3" := ExtensionRunningLocation.Remote ]} Hnd Hfresh).
Defined.

(** ** More on [_updateExtensionsOnExtHosts] *)



(** X17.  A pass that places nothing calls no host: when every added
    record is decided [None] and no removed identifier has an entry
    [LocalWebWorker] or [Remote], the pass is fulfilled without any
    [deltaExtensions] call, whatever the managers would answer.  The empty
    delta is the simplest case. *)
Theorem nothing_placed_no_host_called
    (getExtensionKind : IExtensionDescription → list ExtensionKind) {Registry : Type}
    (toAdd : list IExtensionDescription) (toRemove : list ExtensionIdentifier)
    (this : ExtensionService Registry) :
  (∀ e, e ∈ toAdd →
        addedRunningLocation getExtensionKind e = ExtensionRunningLocation.None) →
  (∀ id, id ∈ toRemove →
         (partitionToAdd getExtensionKind toAdd (_runningLocation this)).2 !! toKey id
           ≠ Some ExtensionRunningLocation.LocalWebWorker
         ∧ (partitionToAdd getExtensionKind toAdd (_runningLocation this)).2 !! toKey id
             ≠ Some ExtensionRunningLocation.Remote) →
  (_updateExtensionsOnExtHosts getExtensionKind toAdd toRemove this).1 = Fulfilled tt
  ∧ deltaCalls (_updateExtensionsOnExtHosts getExtensionKind toAdd toRemove this).2
    = deltaCalls this.
Proof.
  intros Hadd Hrem.
  rewrite _updateExtensionsOnExtHosts_run.
  set (added := partitionToAdd getExtensionKind toAdd (_runningLocation this)) in *.
  set (removed := partitionToRemove toRemove added.2).
  assert (added.1.1 = [] ∧ added.1.2 = []) as [Hla Hra].
  { subst added. rewrite partitionToAdd_eq. simpl.
    split; apply elem_of_nil_inv; intros e [He Hin]%list_elem_of_filter;
      rewrite (Hadd e Hin) in He; done. }
  pose proof (partitionToRemove_from toRemove [] [] added.2) as (_ & Hl & Hr).
  fold (partitionToRemove toRemove added.2) in Hl, Hr. fold removed in Hl, Hr.
  assert (removed.1.1 = [] ∧ removed.1.2 = []) as [Hlr Hrr].
  { split; apply elem_of_nil_inv; intros x Hx;
      apply (list_elem_of_fmap_2 toKey) in Hx;
      [apply Hl in Hx | apply Hr in Hx];
      (destruct Hx as [Hx | [Hin Hm]]; [by apply elem_of_nil in Hx|]);
      apply list_elem_of_fmap in Hin as (id & Hk & Hid);
      destruct (Hrem id Hid) as [H1 H2]; rewrite <- Hk in H1, H2; done. }
  simpl. rewrite Hla, Hra, Hlr, Hrr. unfold dispatchOutcome, dispatchCalls. simpl.
  by rewrite !app_nil_r.
Qed.

Lemma nothing_placed_no_host_called_witness :
  (∀ e, e ∈ [E1_ui_local] →
        addedRunningLocation extensionKind e = ExtensionRunningLocation.None)
  ∧ (∀ id, id ∈ [mkExtensionIdentifier "pub.e2"] →
           (partitionToAdd extensionKind [E1_ui_local]
              (_runningLocation (freshService localRejects))).2 !! toKey id
             ≠ Some ExtensionRunningLocation.LocalWebWorker
           ∧ (partitionToAdd extensionKind [E1_ui_local]
                (_runningLocation (freshService localRejects))).2 !! toKey id
               ≠ Some ExtensionRunningLocation.Remote)
  ∧ (_updateExtensionsOnExtHosts extensionKind [E1_ui_local]
       [mkExtensionIdentifier "pub.e2"] (freshService localRejects)).1 = Fulfilled tt
  ∧ deltaCalls (_updateExtensionsOnExtHosts extensionKind [E1_ui_local]
                  [mkExtensionIdentifier "pub.e2"] (freshService localRejects)).2
    = deltaCalls (freshService localRejects).
Proof.
  assert (∀ e, e ∈ [E1_ui_local] →
            addedRunningLocation extensionKind e = ExtensionRunningLocation.None) as Hadd.
  { intros e He. apply list_elem_of_singleton in He. subst e. reflexivity. }
  assert (∀ id, id ∈ [mkExtensionIdentifier "pub.e2"] →
            (partitionToAdd extensionKind [E1_ui_local]
               (_runningLocation (freshService localRejects))).2 !! toKey id
              ≠ Some ExtensionRunningLocation.LocalWebWorker
            ∧ (partitionToAdd extensionKind [E1_ui_local]
                 (_runningLocation (freshService localRejects))).2 !! toKey id
                ≠ Some ExtensionRunningLocation.Remote) as Hrem.
  { intros id Hid. apply list_elem_of_singleton in Hid. subst id.
    split; vm_compute; discriminate. }
  split; [exact Hadd|]. split; [exact Hrem|].
  exact (nothing_placed_no_host_called extensionKind [E1_ui_local]
           [mkExtensionIdentifier "pub.e2"] (freshService localRejects) Hadd Hrem).
Defined.

(** X18.  A pass appends at most two calls to the log, at most one per host
    and the local web worker's before the remote host's; a call is made
    only to a manager that exists and never carries an empty delta. *)
Theorem delta_calls_shape
    (getExtensionKind : IExtensionDescription → list ExtensionKind) {Registry : Type}
    (toAdd : list IExtensionDescription) (toRemove : list ExtensionIdentifier)
    (this : ExtensionService Registry) :
  ∃ new : list DeltaCall,
    deltaCalls (_updateExtensionsOnExtHosts getExtensionKind toAdd toRemove this).2
    = deltaCalls this ++ new
    ∧ (callKind <$> new)
        `sublist_of` [ExtensionHostKind.LocalWebWorker; ExtensionHostKind.Remote]
    ∧ Forall (fun c =>
                nonEmpty (callToAdd c) || nonEmpty (callToRemove c) = true
                ∧ is_Some (_extensionHostManagers this (callKind c))) new.
Proof.
  rewrite _updateExtensionsOnExtHosts_run. simpl.
  eexists. split; [reflexivity|].
  set (added := partitionToAdd getExtensionKind toAdd (_runningLocation this)).
  set (removed := partitionToRemove toRemove added.2).
  generalize added.1.1 removed.1.1 added.1.2 removed.1.2. intros la lr ra rr.
  unfold dispatchCalls, dispatchOutcome.
  destruct (nonEmpty la || nonEmpty lr) eqn:Hl1;
    destruct (nonEmpty ra || nonEmpty rr) eqn:Hr1;
    destruct (_extensionHostManagers this ExtensionHostKind.LocalWebWorker)
      as [ml|] eqn:Hl2;
    destruct (_extensionHostManagers this ExtensionHostKind.Remote) as [mr|] eqn:Hr2;
    repeat match goal with
           | |- context [deltaExtensions ?m ?a ?b] => destruct (deltaExtensions m a b)
           end;
    simpl; (split; [repeat constructor|]);
    repeat (apply Forall_cons; split; [simpl; rewrite ?Hl2, ?Hr2; by eauto|]);
    apply Forall_nil_2.
Qed.



(** X20.  Hosts that do not exist are skipped in silence: when no manager
    exists for either kind the pass is fulfilled and calls nobody, and the
    running-location map is updated all the same. *)
Theorem absent_managers_are_skipped
    (getExtensionKind : IExtensionDescription → list ExtensionKind) {Registry : Type}
    (toAdd : list IExtensionDescription) (toRemove : list ExtensionIdentifier)
    (this : ExtensionService Registry) :
  (∀ kind, _extensionHostManagers this kind = None) →
  (_updateExtensionsOnExtHosts getExtensionKind toAdd toRemove this).1 = Fulfilled tt
  ∧ deltaCalls (_updateExtensionsOnExtHosts getExtensionKind toAdd toRemove this).2
    = deltaCalls this
  ∧ _runningLocation (_updateExtensionsOnExtHosts getExtensionKind toAdd toRemove this).2
    = (partitionToRemove toRemove
         (partitionToAdd getExtensionKind toAdd (_runningLocation this)).2).2.
Proof.
  intros Hnone. rewrite _updateExtensionsOnExtHosts_run. simpl.
  unfold dispatchOutcome, dispatchCalls. rewrite !Hnone.
  destruct (nonEmpty _ || nonEmpty _), (nonEmpty _ || nonEmpty _); simpl;
    by rewrite ?app_nil_r.
Qed.

Lemma absent_managers_are_skipped_witness :
  (∀ kind, _extensionHostManagers (freshService (fun _ => None)) kind = None)
  ∧ (_updateExtensionsOnExtHosts extensionKind [E2_web_local; E1_ui_remote] []
       (freshService (fun _ => None))).1 = Fulfilled tt
  ∧ deltaCalls (_updateExtensionsOnExtHosts extensionKind [E2_web_local; E1_ui_remote] []
                  (freshService (fun _ => None))).2 = []
  ∧ _runningLocation (_updateExtensionsOnExtHosts extensionKind
                        [E2_web_local; E1_ui_remote] []
                        (freshService (fun _ => None))).2 !! "pub.e2"
    = Some ExtensionRunningLocation.LocalWebWorker.
Proof.
  assert (∀ kind, _extensionHostManagers (freshService (fun _ => None)) kind = None)
    as Hnone by (intros kind; reflexivity).
  destruct (absent_managers_are_skipped extensionKind [E2_web_local; E1_ui_remote] []
              (freshService (fun _ => None)) Hnone) as (H1 & H2 & H3).
  split; [exact Hnone|]. split; [exact H1|]. split; [exact H2|].
  rewrite H3. vm_compute. reflexivity.
Defined.

(** X21.  A pass of [_updateExtensionsOnExtHosts] touches the running
    locations and calls hosts, nothing else: the remote init data, the
    registry, the set of managers and the logged messages are as before,
    whether the pass is fulfilled or rejected. *)
Theorem _updateExtensionsOnExtHosts_frame
    (getExtensionKind : IExtensionDescription → list ExtensionKind) {Registry : Type}
    (toAdd : list IExtensionDescription) (toRemove : list ExtensionIdentifier)
    (this : ExtensionService Registry) :
  let run := _updateExtensionsOnExtHosts getExtensionKind toAdd toRemove this in
  _remoteInitData run.2 = _remoteInitData this
  ∧ _registry run.2 = _registry this
  ∧ _extensionHostManagers run.2 = _extensionHostManagers this
  ∧ messages run.2 = messages this.
Proof. intros run. subst run. by rewrite _updateExtensionsOnExtHosts_run. Qed.

(** ** More on [_scanAndHandleExtensions] and the data providers *)

Section Scan.

Context {Registry : Type}.
Variable getExtensionKind : IExtensionDescription → list ExtensionKind.
Variable registryDeltaExtensions :
  Registry → list IExtensionDescription → list ExtensionIdentifier →
  Registry * list IExtensionDescription.
Variable getAllExtensionDescriptions : Registry → list IExtensionDescription.
Variable _checkEnabledAndProposedAPI :
  list IExtensionDescription → list IExtensionDescription.
Variable getConnectionData : string → option IRemoteConnectionData.

(** A pass whose three scans are fulfilled, in closed form. *)
Lemma _scanAndHandleExtensions_run
    (scannedLocal scannedRemote : list IExtensionDescription)
    (remoteEnv : option IRemoteAgentEnvironment)
    (remoteAgentConnection : option IRemoteAgentConnection)
    (this : ExtensionService Registry) :
  let localExtensions := _checkEnabledAndProposedAPI scannedLocal in
  let remoteExtensions := _checkEnabledAndProposedAPI scannedRemote in
  let table :=
    _determineRunningLocation getExtensionKind localExtensions remoteExtensions
      (bool_decide (is_Some remoteEnv) && bool_decide (is_Some remoteAgentConnection)) in
  let remotePlaced :=
    filterByRunningLocation remoteExtensions table ExtensionRunningLocation.Remote in
  let localPlaced :=
    filterByRunningLocation localExtensions table ExtensionRunningLocation.LocalWebWorker in
  let registered :=
    registryDeltaExtensions (_registry this) (remotePlaced ++ localPlaced) [] in
  _scanAndHandleExtensions getExtensionKind registryDeltaExtensions
    getAllExtensionDescriptions _checkEnabledAndProposedAPI getConnectionData
    (Fulfilled scannedLocal) (Fulfilled remoteEnv) (Fulfilled scannedRemote)
    remoteAgentConnection this
  = (Fulfilled tt,
     mkService
       (match remoteEnv, remoteAgentConnection with
        | Some env, Some connection =>
            Some {| connectionData := getConnectionData (remoteAuthority connection);
                    pid := env_pid env;
                    appRoot := env_appRoot env;
                    extensionHostLogsPath := env_extensionHostLogsPath env;
                    globalStorageHome := env_globalStorageHome env;
                    workspaceStorageHome := env_workspaceStorageHome env;
                    extensions := remotePlaced;
                    allExtensions := getAllExtensionDescriptions registered.1 |}
        | _, _ => _remoteInitData this
        end)
       table registered.1 (_extensionHostManagers this) (deltaCalls this)
       (messages this
          ++ if nonEmpty registered.2 then [loopingMessage registered.2] else [])).
Proof.
  intros localExtensions remoteExtensions table remotePlaced localPlaced registered.
  destruct this as [d m r mgrs calls msgs].
  unfold _scanAndHandleExtensions, await, settle, update, resolve. simpl.
  fold localExtensions remoteExtensions. fold table. fold remotePlaced localPlaced.
  simpl in registered. fold registered.
  destruct registered as [registry removedDueToLooping]. simpl.
  destruct (nonEmpty removedDueToLooping), remoteEnv, remoteAgentConnection; simpl;
    by rewrite ?app_nil_r.
Qed.

End Scan.

(** X22.  When one of the three scans of a pass is rejected, the pass is
    rejected and the service is exactly as before: the running locations
    are not replaced, the registry is not called and no init data is
    stored. *)
Theorem rejected_scan_changes_nothing
    (getExtensionKind : IExtensionDescription → list ExtensionKind) {Registry : Type}
    (registryDeltaExtensions :
       Registry → list IExtensionDescription → list ExtensionIdentifier →
       Registry * list IExtensionDescription)
    (getAllExtensionDescriptions : Registry → list IExtensionDescription)
    (_checkEnabledAndProposedAPI : list IExtensionDescription → list IExtensionDescription)
    (getConnectionData : string → option IRemoteConnectionData)
    (scanAndTranslateExtensions scanExtensions : outcome (list IExtensionDescription))
    (getEnvironment : outcome (option IRemoteAgentEnvironment))
    (getConnection : option IRemoteAgentConnection)
    (this : ExtensionService Registry) :
  let scan := _scanAndHandleExtensions getExtensionKind registryDeltaExtensions
                getAllExtensionDescriptions _checkEnabledAndProposedAPI getConnectionData in
  scan Rejected getEnvironment scanExtensions getConnection this = (Rejected, this)
  ∧ scan scanAndTranslateExtensions Rejected scanExtensions getConnection this
    = (Rejected, this)
  ∧ scan scanAndTranslateExtensions getEnvironment Rejected getConnection this
    = (Rejected, this).
Proof.
  intros scan. subst scan. unfold _scanAndHandleExtensions, await, settle.
  destruct scanAndTranslateExtensions, getEnvironment, scanExtensions; done.
Qed.

(** X23.  A fulfilled pass of [_scanAndHandleExtensions] calls no host and
    leaves the managers alone; it logs one message, naming the extensions
    the registry dropped, exactly when the registry reports a dependency
    loop, and no message otherwise. *)
Theorem scan_calls_no_host_and_logs_loops
    (getExtensionKind : IExtensionDescription → list ExtensionKind) {Registry : Type}
    (registryDeltaExtensions :
       Registry → list IExtensionDescription → list ExtensionIdentifier →
       Registry * list IExtensionDescription)
    (getAllExtensionDescriptions : Registry → list IExtensionDescription)
    (_checkEnabledAndProposedAPI : list IExtensionDescription → list IExtensionDescription)
    (getConnectionData : string → option IRemoteConnectionData)
    (scannedLocal scannedRemote : list IExtensionDescription)
    (remoteEnv : option IRemoteAgentEnvironment)
    (remoteAgentConnection : option IRemoteAgentConnection)
    (this : ExtensionService Registry) :
  let run :=
    _scanAndHandleExtensions getExtensionKind registryDeltaExtensions
      getAllExtensionDescriptions _checkEnabledAndProposedAPI getConnectionData
      (Fulfilled scannedLocal) (Fulfilled remoteEnv) (Fulfilled scannedRemote)
      remoteAgentConnection this in
  let table := _runningLocation run.2 in
  let removedDueToLooping :=
    (registryDeltaExtensions (_registry this)
       (filterByRunningLocation (_checkEnabledAndProposedAPI scannedRemote) table
          ExtensionRunningLocation.Remote
        ++ filterByRunningLocation (_checkEnabledAndProposedAPI scannedLocal) table
             ExtensionRunningLocation.LocalWebWorker) []).2 in
  deltaCalls run.2 = deltaCalls this
  ∧ _extensionHostManagers run.2 = _extensionHostManagers this
  ∧ messages run.2
    = messages this
      ++ match removedDueToLooping with
         | [] => []
         | _ :: _ => [loopingMessage removedDueToLooping]
         end.
Proof.
  intros run table removedDueToLooping.
  subst removedDueToLooping table run.
  rewrite _scanAndHandleExtensions_run. simpl.
  split; [done|]. split; [done|].
  by destruct (registryDeltaExtensions _ _ _).2.
Qed.

(** X24.  In the state that a fulfilled pass with a remote environment
    and a remote connection returns, the two data providers hand no
    identity to both hosts: whatever extension list the local provider
    filters, no identity of its answer is an identity of the remote init
    data's [extensions].  The local answer has [autoStart] set.  (The
    statement is about that state; a later [_updateExtensionsOnExtHosts]
    rewrites the map and keeps the init data.) *)
Theorem init_data_share_no_identity
    (getExtensionKind : IExtensionDescription → list ExtensionKind) {Registry : Type}
    (registryDeltaExtensions :
       Registry → list IExtensionDescription → list ExtensionIdentifier →
       Registry * list IExtensionDescription)
    (getAllExtensionDescriptions : Registry → list IExtensionDescription)
    (_checkEnabledAndProposedAPI : list IExtensionDescription → list IExtensionDescription)
    (getConnectionData : string → option IRemoteConnectionData)
    (scannedLocal scannedRemote allExtensions : list IExtensionDescription)
    (remoteEnv : IRemoteAgentEnvironment)
    (remoteAgentConnection : IRemoteAgentConnection)
    (registered : bool)
    (this : ExtensionService Registry) :
  let run :=
    _scanAndHandleExtensions getExtensionKind registryDeltaExtensions
      getAllExtensionDescriptions _checkEnabledAndProposedAPI getConnectionData
      (Fulfilled scannedLocal) (Fulfilled (Some remoteEnv)) (Fulfilled scannedRemote)
      (Some remoteAgentConnection) this in
  ∃ (remoteData : IRemoteExtensionHostInitData) (localData : LocalInitData.t),
    (remoteGetInitData (Fulfilled registered) run.2).1 = Fulfilled (Some remoteData)
    ∧ (localGetInitData (Fulfilled allExtensions) run.2).1 = Fulfilled localData
    ∧ LocalInitData.autoStart localData = true
    ∧ ∀ k : string,
        ¬ (k ∈ ((fun x => toKey (identifier x)) <$> extensions remoteData)
           ∧ k ∈ ((fun x => toKey (identifier x)) <$> LocalInitData.extensions localData)).
Proof.
  intros run. subst run. rewrite _scanAndHandleExtensions_run.
  unfold remoteGetInitData, localGetInitData, await, settle. simpl.
  eexists _, _. split; [reflexivity|]. split; [reflexivity|]. split; [reflexivity|].
  simpl. intros k [[_ H1]%elem_of_keys_filterByRunningLocation
                   [_ H2]%elem_of_keys_filterByRunningLocation].
  congruence.
Qed.

(** X25.  The remote data provider answers the field as it is.  After a
    fulfilled pass without a remote environment, or without a remote
    connection, its answer is what the service held before that pass:
    [null] when nothing was stored yet, otherwise the data of an earlier
    pass, although the running locations are those of the new pass. *)
Theorem remote_init_data_outlives_scan_without_remote
    (getExtensionKind : IExtensionDescription → list ExtensionKind) {Registry : Type}
    (registryDeltaExtensions :
       Registry → list IExtensionDescription → list ExtensionIdentifier →
       Registry * list IExtensionDescription)
    (getAllExtensionDescriptions : Registry → list IExtensionDescription)
    (_checkEnabledAndProposedAPI : list IExtensionDescription → list IExtensionDescription)
    (getConnectionData : string → option IRemoteConnectionData)
    (scannedLocal scannedRemote : list IExtensionDescription)
    (remoteEnv : option IRemoteAgentEnvironment)
    (remoteAgentConnection : option IRemoteAgentConnection)
    (registered : bool)
    (this : ExtensionService Registry) :
  let scan := _scanAndHandleExtensions getExtensionKind registryDeltaExtensions
                getAllExtensionDescriptions _checkEnabledAndProposedAPI getConnectionData
                (Fulfilled scannedLocal) in
  let table :=
    _determineRunningLocation getExtensionKind (_checkEnabledAndProposedAPI scannedLocal)
      (_checkEnabledAndProposedAPI scannedRemote) false in
  let withoutEnvironment :=
    scan (Fulfilled None) (Fulfilled scannedRemote) remoteAgentConnection this in
  let withoutConnection :=
    scan (Fulfilled remoteEnv) (Fulfilled scannedRemote) None this in
  (remoteGetInitData (Fulfilled registered) withoutEnvironment.2).1
  = Fulfilled (_remoteInitData this)
  ∧ _runningLocation withoutEnvironment.2 = table
  ∧ (remoteGetInitData (Fulfilled registered) withoutConnection.2).1
    = Fulfilled (_remoteInitData this)
  ∧ _runningLocation withoutConnection.2 = table.
Proof.
  intros scan table withoutEnvironment withoutConnection.
  subst withoutEnvironment withoutConnection scan.
  rewrite !_scanAndHandleExtensions_run.
  unfold remoteGetInitData, await, settle. simpl.
  rewrite andb_false_r. by destruct remoteEnv.
Qed.

(** X26.  The bookkeeping agrees with what was dispatched: after a pass
    that adds records with pairwise distinct identities, none of which is
    removed in the same pass, the local data provider run on the added
    records answers exactly the local add list of the pass, in its order. *)
Theorem local_init_data_after_update
    (getExtensionKind : IExtensionDescription → list ExtensionKind) {Registry : Type}
    (toAdd : list IExtensionDescription) (toRemove : list ExtensionIdentifier)
    (this : ExtensionService Registry) :
  NoDup ((fun x => toKey (identifier x)) <$> toAdd) →
  (∀ e, e ∈ toAdd → toKey (identifier e) ∉ toKey <$> toRemove) →
  (localGetInitData (Fulfilled toAdd)
     (_updateExtensionsOnExtHosts getExtensionKind toAdd toRemove this).2).1
  = Fulfilled
      {| LocalInitData.autoStart := true;
         LocalInitData.extensions :=
           (partitionToAdd getExtensionKind toAdd (_runningLocation this)).1.1 |}.
Proof.
  intros Hnd Hkept.
  rewrite _updateExtensionsOnExtHosts_run.
  unfold localGetInitData, await, settle. simpl. f_equal. f_equal.
  pose proof (partitionToRemove_from toRemove [] []
                (partitionToAdd getExtensionKind toAdd (_runningLocation this)).2)
    as [Hm _].
  fold (partitionToRemove toRemove
          (partitionToAdd getExtensionKind toAdd (_runningLocation this)).2) in Hm.
  rewrite Hm. unfold filterByRunningLocation.
  replace ((partitionToAdd getExtensionKind toAdd (_runningLocation this)).1.1)
    with (filter (fun e => addedRunningLocation getExtensionKind e
                           = ExtensionRunningLocation.LocalWebWorker) toAdd)
    by (by rewrite partitionToAdd_eq).
  apply filter_ext_in. intros e He.
  rewrite lookup_forEach_delete, decide_False by (by apply Hkept).
  rewrite lookup_partitionToAdd, (lastWithKey_NoDup _ _ Hnd He).
  split; congruence.
Qed.

Lemma local_init_data_after_update_witness :
  NoDup ((fun x => toKey (identifier x)) <$> [E2_web_local; E1_ui_remote])
  ∧ (∀ e, e ∈ [E2_web_local; E1_ui_remote] →
          toKey (identifier e) ∉ toKey <$> [mkExtensionIdentifier "pub.e3"])
  ∧ (localGetInitData (Fulfilled [E2_web_local; E1_ui_remote])
       (_updateExtensionsOnExtHosts extensionKind [E2_web_local; E1_ui_remote]
          [mkExtensionIdentifier "pub.e3"] (freshService localRejects)).2).1
    = Fulfilled
        {| LocalInitData.autoStart := true;
           LocalInitData.extensions :=
             (partitionToAdd extensionKind [E2_web_local; E1_ui_remote]
                (_runningLocation (freshService localRejects))).1.1 |}.
Proof.
  assert (NoDup ((fun x => toKey (identifier x)) <$> [E2_web_local; E1_ui_remote])) as Hnd.
  { apply (bool_decide_unpack _). vm_compute. exact I. }
  assert (∀ e, e ∈ [E2_web_local; E1_ui_remote] →
            toKey (identifier e) ∉ toKey <$> [mkExtensionIdentifier "pub.e3"]) as Hkept.
  { intros e He. apply elem_of_cons in He as [-> | He];
      [|apply list_elem_of_singleton in He; subst e];
      apply (bool_decide_unpack _); vm_compute; exact I. }
  split; [exact Hnd|]. split; [exact Hkept|].
  exact (local_init_data_after_update extensionKind [E2_web_local; E1_ui_remote]
           [mkExtensionIdentifier "pub.e3"] (freshService localRejects) Hnd Hkept).
Defined.
